(** * The CONS3RT inventory plugin: retrying transport, API client and
      two-stage fetch, embedded from [plugins/inventory/cons3rt.py].

    Conventions of the embedding.
    - A Python [str] is a Rocq [string] holding its UTF-8 encoding; a
      [bytes] object is a [string] of arbitrary bytes.  Byte order on
      UTF-8 text coincides with Python's code-point order.
    - Values produced by [json.loads] are [pyval]s; JSON numbers are
      integers here (floating point is outside the model).
    - A computation is a pair of the events it performed, oldest first,
      and how it ended: a value, a raised exception, or [Hang] (it never
      returns).
    - What the source calls outside the repository is a Section
      variable: the network ([net]), [json.loads] and Ansible's
      [camel_dict_to_snake_dict].  [net url n] is what the [n]-th GET of
      one [http_get] call on [url] meets; the remote state does not
      change during a fetch, so every call on [url] meets the same
      outcomes.  A GET either answers or raises inside the
      [requests.exceptions] hierarchy.
    - The plugin's own surroundings are Section variables too: the
      options of the configuration ([get_option]), Ansible's [Templar],
      the base class's [verify_file] and [get_cache_key], and the
      inventory's [add_group].  The URL and the three credentials are
      text, or [None] when unset; the cache holds the [dict]s an earlier
      [parse] stored. *)

From Stdlib Require Import ZArith String Ascii DecimalString Sorted.
From stdpp Require Import base tactics option list strings.

Set Warnings "-register-all".

(** ** Text helpers *)

Definition nl : string := String "010"%char EmptyString.

(** [str(n)] for a non-negative counter and for an [int]. *)
Definition str_nat (n : nat) : string := NilZero.string_of_uint (Nat.to_uint n).
Definition str_int (z : Z) : string := NilZero.string_of_int (Z.to_int z).

Fixpoint join (sep : string) (l : list string) : string :=
  match l with
  | [] => ""
  | [x] => x
  | x :: r => x +:+ sep +:+ join sep r
  end.

(** [t] occurs in [s]. *)
Definition occurs_in (t s : string) : Prop :=
  ∃ pre post, s = pre +:+ t +:+ post.

(** Executable substring test, for evaluating concrete messages. *)
Fixpoint has_prefix (p s : string) : bool :=
  match p, s with
  | EmptyString, _ => true
  | String a p', String b s' => if Ascii.eqb a b then has_prefix p' s' else false
  | String _ _, EmptyString => false
  end.

Fixpoint occursb (t s : string) : bool :=
  has_prefix t s ||
  match s with
  | EmptyString => false
  | String _ s' => occursb t s'
  end.

(** ** UTF-8 *)

Definition is_continuation (c : ascii) : bool :=
  let n := N_of_ascii c in ((128 <=? n) && (n <=? 191))%N.

Definition within (lo hi : N) (c : ascii) : bool :=
  let n := N_of_ascii c in ((lo <=? n) && (n <=? hi))%N.

(** Strict UTF-8 well-formedness, as [bytes.decode('utf-8')] checks it:
    shortest forms only, no surrogates, nothing above U+10FFFF. *)
Fixpoint utf8_valid (bs : string) : bool :=
  match bs with
  | EmptyString => true
  | String b1 r1 =>
    if within 0 127 b1 then utf8_valid r1 else
    match r1 with
    | EmptyString => false
    | String b2 r2 =>
      if within 194 223 b1 then is_continuation b2 && utf8_valid r2 else
      match r2 with
      | EmptyString => false
      | String b3 r3 =>
        if within 224 239 b1 then
          (if within 224 224 b1 then within 160 191 b2
           else if within 237 237 b1 then within 128 159 b2
           else is_continuation b2)
          && is_continuation b3 && utf8_valid r3
        else
        match r3 with
        | EmptyString => false
        | String b4 r4 =>
          if within 240 244 b1 then
            (if within 240 240 b1 then within 144 191 b2
             else if within 244 244 b1 then within 128 143 b2
             else is_continuation b2)
            && is_continuation b3 && is_continuation b4 && utf8_valid r4
          else false
        end
      end
    end
  end.

(** The characters of a [str], each as a one-character [str]. *)
Fixpoint utf8_split (s : string) : string * list string :=
  match s with
  | EmptyString => ("", [])
  | String c r =>
    let '(pending, cs) := utf8_split r in
    if is_continuation c then (String c pending, cs)
    else ("", String c pending :: cs)
  end.

Definition utf8_chars (s : string) : list string := snd (utf8_split s).

(** ** Python values *)

Inductive pyval : Type :=
| PyNone
| PyBool (b : bool)
| PyInt (z : Z)
| PyStr (s : string)
| PyList (l : list pyval)
| PyDict (d : list (string * pyval)).

(** A [dict] keeps insertion order; its keys are distinct. *)
Abbreviation dict := (list (string * pyval)).

Fixpoint alist_get {V} (k : string) (d : list (string * V)) : option V :=
  match d with
  | [] => None
  | (k', v) :: r => if String.eqb k k' then Some v else alist_get k r
  end.

(** [d[k] = v]: an existing key keeps its position, a new one goes last. *)
Fixpoint dict_set (k : string) (v : pyval) (d : dict) : dict :=
  match d with
  | [] => [(k, v)]
  | (k', v') :: r =>
    if String.eqb k k' then (k, v) :: r else (k', v') :: dict_set k v r
  end.

(** [d.update(u)]. *)
Definition dict_update (u d : dict) : dict :=
  foldl (λ acc kv, dict_set kv.1 kv.2 acc) d u.

Definition py_truthy (v : pyval) : bool :=
  match v with
  | PyNone => false
  | PyBool b => b
  | PyInt z => negb (z =? 0)%Z
  | PyStr s => negb (String.eqb s "")
  | PyList l => match l with [] => false | _ => true end
  | PyDict d => match d with [] => false | _ => true end
  end.

(** [repr] of a [str].  The text goes between single quotes, or between
    double quotes when it holds a single quote and no double one; the
    quote in use and the backslash are escaped, tab, line feed and
    carriage return are written [\t], [\n] and [\r], and the other
    control characters of ASCII as [\xhh].  Characters outside ASCII
    are written as they are: which of them [repr] escapes is a matter
    of the Unicode database. *)
Definition hex_digit (n : N) : ascii :=
  ascii_of_N (if (n <? 10)%N then 48 + n else 87 + n).

Definition repr_char (quote c : ascii) : string :=
  let n := N_of_ascii c in
  let backslash := ascii_of_N 92 in
  if Ascii.eqb c quote || (n =? 92)%N then String backslash (String c "")
  else if (n =? 9)%N then String backslash "t"
  else if (n =? 10)%N then String backslash "n"
  else if (n =? 13)%N then String backslash "r"
  else if (n <? 32)%N || (n =? 127)%N then
    String backslash
      (String "x"%char
         (String (hex_digit (n / 16)) (String (hex_digit (n mod 16)) "")))
  else String c "".

Fixpoint repr_chars (quote : ascii) (s : string) : string :=
  match s with
  | EmptyString => ""
  | String c r => repr_char quote c +:+ repr_chars quote r
  end.

Fixpoint contains (c : ascii) (s : string) : bool :=
  match s with
  | EmptyString => false
  | String c' r => Ascii.eqb c c' || contains c r
  end.

Definition repr_str (s : string) : string :=
  let quote :=
    if contains "'"%char s && negb (contains (ascii_of_N 34) s)
    then ascii_of_N 34 else "'"%char in
  String quote (repr_chars quote s +:+ String quote "").

(** [repr(v)]. *)
Fixpoint py_repr (v : pyval) : string :=
  match v with
  | PyNone => "None"
  | PyBool true => "True"
  | PyBool false => "False"
  | PyInt z => str_int z
  | PyStr s => repr_str s
  | PyList l => "[" +:+ join ", " (map py_repr l) +:+ "]"
  | PyDict d =>
    "{" +:+ join ", " (map (λ kv, repr_str kv.1 +:+ ": " +:+ py_repr kv.2) d) +:+ "}"
  end.

(** [str(v)]. *)
Definition py_str (v : pyval) : string :=
  match v with
  | PyStr s => s
  | _ => py_repr v
  end.

Definition as_number (v : pyval) : option Z :=
  match v with
  | PyInt z => Some z
  | PyBool b => Some (if b then 1 else 0)%Z
  | _ => None
  end.

(** [a == b]; it never raises on these values. *)
Fixpoint py_eq (a b : pyval) : bool :=
  match a, b with
  | PyNone, PyNone => true
  | PyStr s, PyStr t => String.eqb s t
  | PyList xs, PyList ys =>
    (fix all2 (xs ys : list pyval) : bool :=
       match xs, ys with
       | [], [] => true
       | x :: xs', y :: ys' => py_eq x y && all2 xs' ys'
       | _, _ => false
       end) xs ys
  | PyDict d, PyDict e =>
    (length d =? length e)%nat &&
    forallb (λ kv, match alist_get kv.1 e with
                   | Some w => py_eq kv.2 w
                   | None => false
                   end) d
  | _, _ =>
    match as_number a, as_number b with
    | Some m, Some n => (m =? n)%Z
    | _, _ => false
    end
  end.

(** ** Exceptions, outcomes and the computation monad *)

(** The part of [requests.exceptions] a GET can raise. *)
Inductive exc_class := RequestException | ConnectionError | Timeout | SSLError.

(** [issubclass c d] in [requests.exceptions]: everything derives from
    [RequestException], and [SSLError] derives from [ConnectionError]. *)
Definition issubclass (c d : exc_class) : bool :=
  match d, c with
  | RequestException, _ => true
  | ConnectionError, (ConnectionError | SSLError) => true
  | Timeout, Timeout => true
  | SSLError, SSLError => true
  | _, _ => false
  end.

Inductive exn :=
| Cons3rtClientError (msg : string)
| KeyError (key : string)
| TypeError (what : string)
| AttributeError (what : string)
| UnicodeDecodeError
| JSONDecodeError
| Uncaught (c : exc_class) (msg : string)
| OtherError (class_name msg : string).

Inductive result (A : Type) :=
| Ok (a : A)
| Raise (e : exn)
| Hang.
Arguments Ok {A} a.
Arguments Raise {A} e.
Arguments Hang {A}.

(** [io E A]: the events of type [E] performed, then the ending. *)
Definition io (E A : Type) : Type := list E * result A.

Definition ret {E A} (a : A) : io E A := ([], Ok a).
Definition raise {E A} (e : exn) : io E A := ([], Raise e).
Definition hang {E A} : io E A := ([], Hang).
Definition emit {E} (e : E) : io E unit := ([e], Ok tt).
Definition lift {E A} (r : result A) : io E A := ([], r).

Definition bind {E A B} (c : io E A) (k : A → io E B) : io E B :=
  match c with
  | (evs, Ok a) => match k a with (evs', r) => ((evs ++ evs')%list, r) end
  | (evs, Raise e) => (evs, Raise e)
  | (evs, Hang) => (evs, Hang)
  end.

Arguments bind : simpl never.

Notation "'do' x <- c ; k" := (bind c (λ x, k))
  (at level 10, x name, c at level 100, k at level 200).
Notation "c ;; k" := (bind c (λ _, k))
  (at level 100, k at level 200, right associativity).

(** ** Operations of Python used by the source *)

(** [v[k]] for a string key. *)
Definition py_getitem (v : pyval) (k : string) : result pyval :=
  match v with
  | PyDict d =>
    match alist_get k d with
    | Some w => Ok w
    | None => Raise (KeyError k)
    end
  | PyList _ | PyStr _ => Raise (TypeError "indices must be integers")
  | _ => Raise (TypeError "object is not subscriptable")
  end.

(** What [for x in v] runs through. *)
Definition py_iter (v : pyval) : result (list pyval) :=
  match v with
  | PyList l => Ok l
  | PyDict d => Ok (map (λ kv, PyStr kv.1) d)
  | PyStr s => Ok (map PyStr (utf8_chars s))
  | _ => Raise (TypeError "object is not iterable")
  end.

(** [v.update(u)]: only a [dict] has the method. *)
Definition py_update (v : pyval) (u : dict) : result pyval :=
  match v with
  | PyDict d => Ok (PyDict (dict_update u d))
  | _ => Raise (AttributeError "update")
  end.

(** [a < b]. *)
Fixpoint py_lt (a b : pyval) : result bool :=
  match a, b with
  | PyStr s, PyStr t => Ok (String.ltb s t)
  | PyList xs, PyList ys =>
    (fix lex (xs ys : list pyval) : result bool :=
       match xs, ys with
       | [], [] => Ok false
       | [], _ :: _ => Ok true
       | _ :: _, [] => Ok false
       | x :: xs', y :: ys' => if py_eq x y then lex xs' ys' else py_lt x y
       end) xs ys
  | _, _ =>
    match as_number a, as_number b with
    | Some m, Some n => Ok (m <? n)%Z
    | _, _ => Raise (TypeError "'<' not supported between instances")
    end
  end.

(** ** HTTP *)

Inductive body := NoBody | Bytes (b : string) | Text (s : string).

Record response := Response {
  status_code : Z;
  headers : list (string * string);
  content : body
}.

(** What one GET meets. *)
Inductive outcome :=
| Answers (r : response)
| Fails (c : exc_class) (e : string).

Inductive event :=
| EvGet (url : string)
| EvPrint (text : string)
| EvSleep (secs : nat)
| EvTiming.

(** ** class Session *)

Record Credentials := {
  cert_file_path : string;
  cert_password : string;
  cons3rt_token : string
}.

Record Session := {
  max_retry_attempts : nat;
  retry_time_sec : nat;
  base : string;
  credentials : Credentials
}.

(** [Session.__init__]. *)
Definition Session_init (b : string) (c : Credentials) : Session :=
  {| max_retry_attempts := 10; retry_time_sec := 5; base := b; credentials := c |}.

Definition is_None (v : pyval) : bool :=
  match v with PyNone => true | _ => false end.

Definition isinstance_str (v : pyval) : bool :=
  match v with PyStr _ => true | _ => false end.

(** [Session.validate_target]. *)
Definition validate_target (target : pyval) : io event unit :=
  if is_None target || negb (isinstance_str target)
  then raise (Cons3rtClientError "Invalid target arg provided")
  else ret tt.

(** The text a failed attempt appends to its [err_msg]. *)
Definition attempt_failure (kind : string) (attempt_num : nat) (e : string) : string :=
  kind +:+ " on GET attempt #" +:+ str_nat attempt_num +:+ nl +:+ e.

Section Transport.
Variable net : string → nat → outcome.
Variable self : Session.

(** The [while True] loop of [Session.http_get]; one unit of [fuel]
    per iteration.  The channel an attempt builds (the PKCS#12 adapter
    and the [token] / [Accept] headers) is the same for every attempt
    of a session and has no event of its own; it is taken here as
    built, and [s.get] as raising nothing outside
    [requests.exceptions].  [Full.http_get] below is the method without
    these two conditions. *)
Fixpoint http_get_loop (fuel attempt_num : nat) (err_msg_tally url : string)
  : io event response :=
  match fuel with
  | 0 => hang
  | S fuel' =>
    if (max_retry_attempts self <=? attempt_num)%nat then
      raise (Cons3rtClientError
               ("Max attempts exceeded: " +:+ str_nat (max_retry_attempts self)
                +:+ nl +:+ err_msg_tally))
    else
      let err_msg := "" in
      emit (EvGet url) ;;
      match net url attempt_num with
      | Answers response => ret response
      | Fails c exc =>
        do err_msg <-
           (if issubclass c RequestException then
              ret (err_msg +:+ attempt_failure "RequestException" attempt_num exc)
            else if issubclass c SSLError then
              ret (err_msg +:+ attempt_failure "SSLError" attempt_num exc)
            else raise (Uncaught c exc)) ;
        emit (EvPrint err_msg) ;;
        let err_msg_tally := err_msg_tally +:+ err_msg +:+ nl in
        let attempt_num := attempt_num + 1 in
        emit (EvSleep (retry_time_sec self)) ;;
        http_get_loop fuel' attempt_num err_msg_tally url
      end
  end.

(** [Session.http_get]. *)
Definition http_get (target : pyval) : io event response :=
  validate_target target ;;
  match target with
  | PyStr t =>
    let url := base self +:+ t in
    http_get_loop (S (max_retry_attempts self)) 1 "" url
  | _ => raise (TypeError "can only concatenate str to str")
  end.
End Transport.

(** ** Bodies *)

Definition rbind {A B} (r : result A) (k : A → result B) : result B :=
  match r with
  | Ok a => k a
  | Raise e => Raise e
  | Hang => Hang
  end.

Notation "'let*' x := r 'in' k" := (rbind r (λ x, k))
  (at level 10, x name, r at level 100, k at level 200).

(** [b.decode('utf-8')]. *)
Definition decode_utf8 (b : string) : result string :=
  if utf8_valid b then Ok b else Raise UnicodeDecodeError.

(** [response.content.decode('utf-8')]: only [bytes] has [decode]. *)
Definition content_decode (c : body) : result string :=
  match c with
  | Bytes b => decode_utf8 b
  | NoBody | Text _ => Raise (AttributeError "decode")
  end.

Definition body_truthy (c : body) : bool :=
  match c with
  | NoBody => false
  | Bytes b | Text b => negb (String.eqb b "")
  end.

(** [str] of a [dict] of text, which is how headers print. *)
Definition str_of_headers (h : list (string * string)) : string :=
  py_str (PyDict (map (λ kv, (kv.1, PyStr kv.2)) h)).

Definition str_opt (o : option string) : string :=
  match o with
  | Some s => s
  | None => "None"
  end.

Section Response.
(** Python's [str] on [response.headers], as [format] calls it. *)
Variable str_headers : list (string * string) → string.

(** [Session.parse_response]. *)
Definition parse_response (response : response) : io event (option string) :=
  do decoded_content <-
     (if body_truthy (content response) then
        match content response with
        | Bytes b => do s <- lift (decode_utf8 b); ret (Some s)
        | Text s => ret (Some s)
        | NoBody => ret None
        end
      else ret None) ;
  if negb ((status_code response =? 200)%Z || (status_code response =? 202)%Z) then
    let msg := "Received HTTP code [" +:+ str_int (status_code response)
               +:+ "] with headers:" +:+ nl +:+ str_headers (headers response) in
    let msg := match decoded_content with
               | Some c => if String.eqb c "" then msg
                           else msg +:+ nl +:+ "and content:" +:+ nl +:+ c
               | None => msg
               end in
    raise (Cons3rtClientError msg)
  else
    (if (status_code response =? 200)%Z
     then emit (EvPrint "Received an OK HTTP Response Code")
     else if (status_code response =? 202)%Z
     then emit (EvPrint "Received an ACCEPTED HTTP Response Code (202)")
     else ret tt) ;;
    emit (EvPrint ("Parsed decoded content: " +:+ str_opt decoded_content)) ;;
    ret decoded_content.
End Response.

(** ** The three operations of the API client *)

Section Client.
Variable net : string → nat → outcome.
(** [json.loads]; [None] when it raises [JSONDecodeError]. *)
Variable json_loads : string → option pyval.
Variable self : Session.

Definition loads (text : string) : result pyval :=
  match json_loads text with
  | Some v => Ok v
  | None => Raise JSONDecodeError
  end.

(** [json.loads(self.http_get(target).content.decode('utf-8'))]. *)
Definition get_json (target : string) : io event pyval :=
  do response <- http_get net self (PyStr target) ;
  do text <- lift (content_decode (content response)) ;
  lift (loads text).

(** [Session.get_drs]. *)
Definition get_drs : io event pyval :=
  do deployment_runs <-
     get_json "/api/drs?search_type=SEARCH_AVAILABLE&in_project=true" ;
  ret deployment_runs.

(** The [for d in deployment_run['deploymentRunHosts']] loop; the
    elements are updated in place, so the list holds the updated ones. *)
Fixpoint stamp_hosts (deployment_run deployment_run_id : pyval) (ds : list pyval)
  : result (list pyval) :=
  match ds with
  | [] => Ok []
  | d :: rest =>
    let* d := py_update d [("drId", deployment_run_id)] in
    let* name := py_getitem deployment_run "name" in
    let* d := py_update d [("drName", name)] in
    let* rest := stamp_hosts deployment_run deployment_run_id rest in
    Ok (d :: rest)
  end.

(** [Session.get_dr_hosts].  What is returned is the object under
    ['deploymentRunHosts']: the list of updated elements, or, when it
    is not a list, the object the loop ran through without a step. *)
Definition get_dr_hosts (deployment_run_id : pyval) : io event pyval :=
  do deployment_run <- get_json ("/api/drs/" +:+ py_str deployment_run_id) ;
  do hosts <- lift (py_getitem deployment_run "deploymentRunHosts") ;
  do ds <- lift (py_iter hosts) ;
  do ds <- lift (stamp_hosts deployment_run deployment_run_id ds) ;
  ret (match hosts with
       | PyList _ => PyList ds
       | _ => hosts
       end).

(** [Session.get_dr_host_details]. *)
Definition get_dr_host_details
  (deployment_run_id deployment_run_host_id deployment_run_name : pyval)
  : io event pyval :=
  do deployment_run_host <-
     get_json ("/api/drs/" +:+ py_str deployment_run_id +:+ "/host/"
               +:+ py_str deployment_run_host_id) ;
  do deployment_run_host <-
     lift (py_update deployment_run_host [("drId", deployment_run_id)]) ;
  do deployment_run_host <-
     lift (py_update deployment_run_host [("drName", deployment_run_name)]) ;
  ret deployment_run_host.
End Client.

(** ** ThreadPoolExecutor *)

Section Pool.
Context {A : Type}.

(** A future: [None] while its task has not completed. *)
Definition future : Type := option (result A).

(** Task [i] completes: its events join the log and its ending is
    stored in future [i].  A task completes once. *)
Definition complete (tasks : list (io event A))
  (st : list event * list future) (i : nat) : list event * list future :=
  match tasks !! i, st.2 !! i with
  | Some t, Some None => ((st.1 ++ t.1)%list, <[i := Some t.2]> st.2)
  | _, _ => st
  end.

(** The tasks complete in the order [order] gives; leaving the [with]
    block waits for the others, taken here in submission order. *)
Definition run_pool (order : list nat) (tasks : list (io event A))
  : list event * list future :=
  foldl (complete tasks) ([], replicate (length tasks) None)
        (order ++ seq 0 (length tasks)).

(** [r.result()]: blocks while the future is pending. *)
Definition future_result (r : future) : result A :=
  match r with
  | Some ending => ending
  | None => Hang
  end.
End Pool.

(** ** class InventoryModule: the fetch *)

Section Fetch.
Variable net : string → nat → outcome.
Variable json_loads : string → option pyval.
(** The client [_get_connection] builds from the configured URL and
    credentials. *)
Variable client : Session.

(** First submission loop; its events are the submitted run ids. *)
Fixpoint submit_runs (drs : list pyval) : io pyval unit :=
  match drs with
  | [] => ret tt
  | dr :: rest =>
    do status <- lift (py_getitem dr "fapStatus") ;
    (if py_eq status (PyStr "RESERVED")
     then do id <- lift (py_getitem dr "id") ; emit id
     else ret tt) ;;
    submit_runs rest
  end.

(** Second submission loop; its events are the submitted triples. *)
Fixpoint submit_hosts (dr_hosts : list pyval) : io (pyval * pyval * pyval) unit :=
  match dr_hosts with
  | [] => ret tt
  | dr_host :: rest =>
    do drId <- lift (py_getitem dr_host "drId") ;
    do id <- lift (py_getitem dr_host "id") ;
    do drName <- lift (py_getitem dr_host "drName") ;
    emit (drId, id, drName) ;;
    submit_hosts rest
  end.

(** [for r in results: dr_hosts.extend(r.result())]. *)
Fixpoint gather_extend (results : list (@future pyval)) : result (list pyval) :=
  match results with
  | [] => Ok []
  | r :: rest =>
    let* v := future_result r in
    let* items := py_iter v in
    let* more := gather_extend rest in
    Ok (items ++ more)%list
  end.

(** [for r in results: all_dr_hosts.append(r.result())]. *)
Fixpoint gather_append (results : list (@future pyval)) : result (list pyval) :=
  match results with
  | [] => Ok []
  | r :: rest =>
    let* v := future_result r in
    let* more := gather_append rest in
    Ok (v :: more)
  end.

Definition host_task (a : pyval * pyval * pyval) : io event pyval :=
  get_dr_host_details net json_loads client a.1.1 a.1.2 a.2.

(** [InventoryModule._get_hosts] from the first [ThreadPoolExecutor] on,
    [drs] being the runs the loop goes through; [order1] and [order2]
    are the completion orders of the two pools.  An exception of a
    submission loop leaves the [with] block once the submitted tasks
    have completed. *)
Definition fan_out (drs : list pyval) (order1 order2 : list nat)
  : io event (list pyval) :=
  let submitted := submit_runs drs in
  let pool := run_pool order1 (map (get_dr_hosts net json_loads client) submitted.1) in
  (pool.1, submitted.2) ;;
  do dr_hosts <- lift (gather_extend pool.2) ;
  emit EvTiming ;;
  let submitted := submit_hosts dr_hosts in
  let pool := run_pool order2 (map host_task submitted.1) in
  (pool.1, submitted.2) ;;
  do all_dr_hosts <- lift (gather_append pool.2) ;
  ret all_dr_hosts.

(** [InventoryModule._get_hosts]. *)
Definition _get_hosts (order1 order2 : list nat) : io event (list pyval) :=
  do drs <- get_drs net json_loads client ;
  do drs <- lift (py_iter drs) ;
  fan_out drs order1 order2.
End Fetch.

(** ** sorted *)

(** One insertion of [list.sort]: [kx] goes in front of the first
    element that is not smaller, so equal keys keep their order. *)
Fixpoint insert_by_key (kx : pyval * pyval) (l : list (pyval * pyval))
  : result (list (pyval * pyval)) :=
  match l with
  | [] => Ok [kx]
  | ky :: rest =>
    let* smaller := py_lt ky.1 kx.1 in
    if smaller : bool then
      let* rest := insert_by_key kx rest in Ok (ky :: rest)
    else Ok (kx :: ky :: rest)
  end.

Fixpoint sort_by_key (l : list (pyval * pyval)) : result (list (pyval * pyval)) :=
  match l with
  | [] => Ok []
  | kx :: rest =>
    let* rest := sort_by_key rest in
    insert_by_key kx rest
  end.

Fixpoint with_keys (key : pyval → result pyval) (l : list pyval)
  : result (list (pyval * pyval)) :=
  match l with
  | [] => Ok []
  | x :: rest =>
    let* k := key x in
    let* rest := with_keys key rest in
    Ok ((k, x) :: rest)
  end.

(** [sorted(l, key=key)]: the keys are computed first, then the list is
    sorted with [<] alone, stably.  On keys that [<] orders totally
    every stable sort returns this list; when [<] raises for some pair,
    which pairs are compared is the algorithm's choice, and this is
    insertion from the right. *)
Definition py_sorted (key : pyval → result pyval) (l : list pyval)
  : result (list pyval) :=
  let* keyed := with_keys key l in
  let* keyed := sort_by_key keyed in
  Ok (map snd keyed).

Section Query.
Variable net : string → nat → outcome.
Variable json_loads : string → option pyval.
Variable client : Session.

(** [InventoryModule._query]. *)
Definition _query (order1 order2 : list nat) : io event pyval :=
  do hosts <- _get_hosts net json_loads client order1 order2 ;
  do hosts <- lift (py_sorted (λ x, py_getitem x "id") hosts) ;
  ret (PyDict [("cons3rt", PyList hosts)]).
End Query.

(** ** Populating the inventory *)

(** What [_add_hosts] asks of the inventory and of [Constructable].
    A trace records the calls as made: what the inventory does with
    them is its own, and it raises [AnsibleError] on a host name that
    is not a [str]. *)
Inductive sink_call :=
| AddHost (hostname : pyval) (group : string)
| SetVariable (hostname : pyval) (hostvar : string) (hostval : pyval)
| SetCompositeVars (host : dict) (hostname : pyval)
| AddHostToComposedGroups (host : dict) (hostname : pyval)
| AddHostToKeyedGroups (host : dict) (hostname : pyval).

(** The host a call names. *)
Definition call_hostname (c : sink_call) : pyval :=
  match c with
  | AddHost h _ | SetVariable h _ _ | SetCompositeVars _ h
  | AddHostToComposedGroups _ h | AddHostToKeyedGroups _ h => h
  end.

Section Populate.
(** Ansible's [camel_dict_to_snake_dict(d, ignore_list)]. *)
Variable camel_dict_to_snake_dict : list string → dict → dict.

(** [for hostvar, hostval in host.items()]. *)
Fixpoint set_variables (hostname : pyval) (items new_vars : dict)
  : io sink_call dict :=
  match items with
  | [] => ret new_vars
  | (hostvar, hostval) :: rest =>
    let new_vars := dict_set hostvar hostval new_vars in
    emit (SetVariable hostname hostvar hostval) ;;
    set_variables hostname rest new_vars
  end.

(** One turn of the loop of [_add_hosts]. *)
Definition _add_host (host : pyval) (group : string) : io sink_call unit :=
  do hostname <- lift (py_getitem host "systemRole") ;
  do host <- match host with
             | PyDict d => ret (camel_dict_to_snake_dict ["Tags"] d)
             | _ => raise (AttributeError "items")
             end ;
  if negb (py_truthy hostname) then ret tt
  else
    emit (AddHost hostname group) ;;
    do new_vars <- set_variables hostname host [] ;
    let host := dict_update new_vars host in
    emit (SetCompositeVars host hostname) ;;
    emit (AddHostToComposedGroups host hostname) ;;
    emit (AddHostToKeyedGroups host hostname).

(** [InventoryModule._add_hosts]. *)
Fixpoint _add_hosts (hosts : list pyval) (group : string) : io sink_call unit :=
  match hosts with
  | [] => ret tt
  | host :: rest => _add_host host group ;; _add_hosts rest group
  end.
End Populate.

(** ** class InventoryModule: configuration, population, entry point *)

(** A call that may raise Ansible's [AnsibleError]. *)
Inductive ansible (A : Type) :=
| Fine (a : A)
| AnsibleError (msg : string).
Arguments Fine {A} a.
Arguments AnsibleError {A} msg.

(** [d[k] = v] on a dict of any values. *)
Fixpoint alist_set {V} (k : string) (v : V) (d : list (string * V)) : list (string * V) :=
  match d with
  | [] => [(k, v)]
  | (k', v') :: r =>
    if String.eqb k k' then (k, v) :: r else (k', v') :: alist_set k v r
  end.

(** [s.endswith(suffix)]. *)
Fixpoint endswith (s suffix : string) : bool :=
  String.eqb s suffix ||
  match s with
  | EmptyString => false
  | String _ s' => endswith s' suffix
  end.

(** The events of a computation, renamed. *)
Definition relabel {E E' A} (f : E → E') (c : io E A) : io E' A := (map f c.1, c.2).

(** What [_populate] asks of the inventory. *)
Inductive inventory_call :=
| AddGroup (group : string)
| OfHost (c : sink_call)
| AddChild (parent child : string).

(** What [parse] does: requests and prints of the client, calls on the
    inventory, and [self._cache[cache_key] = results]. *)
Inductive plugin_event :=
| Net (e : event)
| Inventory (c : inventory_call)
| CacheSet (cache_key : string) (results : dict).

(** [results] as [_populate] goes through it: a [dict]. *)
Definition py_dict (v : pyval) : result dict :=
  match v with
  | PyDict d => Ok d
  | _ => Raise (TypeError "object is not a dict")
  end.

Module Plugin.

(** The attributes of the plugin; the options it is configured with are
    text, or [None] when unset. *)
Record InventoryModule := {
  group_prefix : string;
  max_workers : nat;
  cons3rt_url : option string;
  cert_file_path : option string;
  cert_password : option string;
  cons3rt_token : option string
}.

(** [InventoryModule.__init__]. *)
Definition InventoryModule_init : InventoryModule :=
  {| group_prefix := "cons3rt_"; max_workers := 10; cons3rt_url := None;
     cert_file_path := None; cert_password := None; cons3rt_token := None |}.

(** Truth value of an attribute: [None] and [''] are false. *)
Definition truthy (v : option string) : bool :=
  match v with
  | Some text => negb (String.eqb text "")
  | None => false
  end.

(** [InventoryModule._get_credentials]. *)
Definition _get_credentials (self : InventoryModule) : list (string * string) :=
  foldl (λ cons3rt_params credential,
           match credential.2 with
           | Some text =>
             if truthy credential.2 then alist_set credential.1 text cons3rt_params
             else cons3rt_params
           | None => cons3rt_params
           end)
        []
        [("cert_file_path", cert_file_path self);
         ("cert_password", cert_password self);
         ("cons3rt_token", cons3rt_token self)].

(** [self.credentials[k]]. *)
Definition credentials_getitem (credentials : list (string * string)) (k : string)
  : result string :=
  match alist_get k credentials with
  | Some v => Ok v
  | None => Raise (KeyError k)
  end.

(** [InventoryModule._get_connection], with what the first request of
    the client reads of it before any GET: [Session.__init__] raises
    nothing, so the [except] clause is never entered; [self.base +
    target] needs a [str] base, and the channel reads the three
    credentials, in this order. *)
Definition _get_connection (self : InventoryModule) (credentials : list (string * string))
  : result Session :=
  match cons3rt_url self with
  | None => Raise (TypeError "unsupported operand type(s) for +: 'NoneType' and 'str'")
  | Some url =>
    let* filename := credentials_getitem credentials "cert_file_path" in
    let* password := credentials_getitem credentials "cert_password" in
    let* token := credentials_getitem credentials "cons3rt_token" in
    Ok (Session_init url (Build_Credentials filename password token))
  end.

Section Configuration.
(** [self.get_option] on the credential options. *)
Variable get_option : string → option string.
(** [Templar.is_template] and [Templar.template]. *)
Variable is_template : option string → bool.
Variable template : option string → ansible (option string).

(** One turn of the loop of [_set_credentials]: the value stored under
    [credential_type]. *)
Definition credential (credential_type : string) : ansible (option string) :=
  if is_template (get_option credential_type)
  then template (get_option credential_type)
  else Fine (get_option credential_type).

(** [InventoryModule._set_credentials]: the loop over the three
    credential types, the three assignments, then the check. *)
Definition _set_credentials (self : InventoryModule) : InventoryModule * ansible unit :=
  match credential "cert_file_path" with
  | AnsibleError msg => (self, AnsibleError msg)
  | Fine file_path =>
    match credential "cert_password" with
    | AnsibleError msg => (self, AnsibleError msg)
    | Fine password =>
      match credential "cons3rt_token" with
      | AnsibleError msg => (self, AnsibleError msg)
      | Fine token =>
        let self :=
          {| group_prefix := group_prefix self; max_workers := max_workers self;
             cons3rt_url := cons3rt_url self;
             cert_file_path := file_path; cert_password := password;
             cons3rt_token := token |} in
        if negb (truthy (cert_file_path self) && truthy (cert_password self)
                 && truthy (cons3rt_token self))
        then (self, AnsibleError ("Insufficient credentials found. Please provide them "
                                  +:+ "in your inventory configuration file."))
        else (self, Fine tt)
      end
    end
  end.
End Configuration.

Section VerifyFile.
(** [BaseInventoryPlugin.verify_file]: the file exists and is readable. *)
Variable base_verify_file : string → bool.

(** [InventoryModule.verify_file]. *)
Definition verify_file (path : string) : bool :=
  let valid := false in
  if base_verify_file path then
    if endswith path "cons3rt.yaml" || endswith path "cons3rt.yml" then true
    else valid
  else valid.
End VerifyFile.

Section Population.
Variable camel_dict_to_snake_dict : list string → dict → dict.
(** [self.inventory.add_group]: the name the inventory gave the group. *)
Variable add_group : string → string.

(** The loop of [_populate] over the keys of [groups]. *)
Fixpoint populate_groups (groups : dict) (keys : list string) : io inventory_call unit :=
  match keys with
  | [] => ret tt
  | group :: rest =>
    emit (AddGroup group) ;;
    let group := add_group group in
    do hosts <- lift (py_getitem (PyDict groups) group) ;
    do hosts <- lift (py_iter hosts) ;
    relabel OfHost (_add_hosts camel_dict_to_snake_dict hosts group) ;;
    emit (AddChild "all" group) ;;
    populate_groups groups rest
  end.

(** [InventoryModule._populate]. *)
Definition _populate (groups : dict) : io inventory_call unit :=
  populate_groups groups (map fst groups).
End Population.

Section Parse.
Variable net : string → nat → outcome.
Variable json_loads : string → option pyval.
Variable camel_dict_to_snake_dict : list string → dict → dict.
Variable add_group : string → string.
Variable get_option : string → option string.
Variable is_template : option string → bool.
Variable template : option string → ansible (option string).
(** [self.get_option('cons3rt_url')], a required option, and
    [self.get_option('cache')]. *)
Variable cons3rt_url_option : string.
Variable cache_option : bool.
Variable get_cache_key : string → string.
(** [self._cache] when [parse] is entered. *)
Variable _cache : list (string * dict).

(** [self._query()] on the plugin: [_get_hosts] builds its client from
    the credentials of [self]. *)
Definition query (self : InventoryModule) (order1 order2 : list nat) : io event pyval :=
  do client <- lift (_get_connection self (_get_credentials self)) ;
  _query net json_loads client order1 order2.

(** [InventoryModule.parse], from the point where the base class's
    [parse] and [_read_config_data] have returned.  The two make the
    options available; [_read_config_data] raises
    [AnsibleRequiredOptionError] for a required option that is unset
    (the URL and the three credentials are required), so [get_option]
    stands for the options of a configuration that passed that check,
    and the facts that depend on it assume the credentials set.
    [order1] and [order2] are the completion orders of the two pools of
    the fetch. *)
Definition parse (self : InventoryModule) (path : string) (cache : bool)
  (order1 order2 : list nat) : InventoryModule * ansible (io plugin_event unit) :=
  match _set_credentials get_option is_template template self with
  | (self, AnsibleError msg) => (self, AnsibleError msg)
  | (self, Fine _) =>
    let self :=
      {| group_prefix := group_prefix self; max_workers := max_workers self;
         cons3rt_url := Some cons3rt_url_option;
         cert_file_path := cert_file_path self; cert_password := cert_password self;
         cons3rt_token := cons3rt_token self |} in
    let cache_key := get_cache_key path in
    let cache := if cache then cache_option else cache in
    let results := [] in
    let cache_needs_update := false in
    let '(results, cache_needs_update) :=
      if cache then
        match alist_get cache_key _cache with
        | Some cached => (cached, cache_needs_update)
        | None => (results, true)
        end
      else (results, cache_needs_update) in
    (self,
     Fine (do results <-
              (if negb cache || cache_needs_update then
                 do queried <- relabel Net (query self order1 order2) ;
                 lift (py_dict queried)
               else ret results) ;
           relabel Inventory (_populate camel_dict_to_snake_dict add_group results) ;;
           if cache_needs_update || (negb cache && cache_option)
           then emit (CacheSet cache_key results)
           else ret tt))
  end.
End Parse.

End Plugin.

(** ** Session.http_get, with the channel of each attempt

    [http_get] above takes the channel of every attempt for built and
    the exceptions of [s.get] for those of [requests.exceptions].  Here
    is the method with both.  The statements before the [try] read the
    credentials by subscript and construct the adapter; nothing catches
    what they raise, and no [except] clause catches an exception of
    [s.get] outside [requests.exceptions]. *)

Module Full.
Section Transport.
(** [Pkcs12Adapter(pkcs12_filename=..., pkcs12_password=...)], of the
    package's [requests_pkcs12]: what constructing it raises at an
    attempt, if anything. *)
Variable Pkcs12Adapter : string → string → nat → option exn.
Variable net : string → nat → outcome.
(** What [s.get] raises at an attempt outside [requests.exceptions], if
    anything. *)
Variable escapes : string → nat → option exn.
Variable self : Session.
(** [self.credentials], the [dict] the session was given, whatever keys
    it has. *)
Variable credentials : list (string * string).

(** The [while True] loop of [Session.http_get]. *)
Fixpoint http_get_loop (fuel attempt_num : nat) (err_msg_tally url : string)
  : io event response :=
  match fuel with
  | 0 => hang
  | S fuel' =>
    if (max_retry_attempts self <=? attempt_num)%nat then
      raise (Cons3rtClientError
               ("Max attempts exceeded: " +:+ str_nat (max_retry_attempts self)
                +:+ nl +:+ err_msg_tally))
    else
      let err_msg := "" in
      do pkcs12_filename <-
         lift (Plugin.credentials_getitem credentials "cert_file_path") ;
      do pkcs12_password <-
         lift (Plugin.credentials_getitem credentials "cert_password") ;
      lift (match Pkcs12Adapter pkcs12_filename pkcs12_password attempt_num with
            | Some e => Raise e
            | None => Ok tt
            end) ;;
      do token <- lift (Plugin.credentials_getitem credentials "cons3rt_token") ;
      emit (EvGet url) ;;
      match escapes url attempt_num with
      | Some e => raise e
      | None =>
        match net url attempt_num with
        | Answers response => ret response
        | Fails c exc =>
          do err_msg <-
             (if issubclass c RequestException then
                ret (err_msg +:+ attempt_failure "RequestException" attempt_num exc)
              else if issubclass c SSLError then
                ret (err_msg +:+ attempt_failure "SSLError" attempt_num exc)
              else raise (Uncaught c exc)) ;
          emit (EvPrint err_msg) ;;
          let err_msg_tally := err_msg_tally +:+ err_msg +:+ nl in
          let attempt_num := attempt_num + 1 in
          emit (EvSleep (retry_time_sec self)) ;;
          http_get_loop fuel' attempt_num err_msg_tally url
        end
      end
  end.

(** [Session.http_get]. *)
Definition http_get (target : pyval) : io event response :=
  validate_target target ;;
  match target with
  | PyStr t =>
    let url := base self +:+ t in
    http_get_loop (S (max_retry_attempts self)) 1 "" url
  | _ => raise (TypeError "can only concatenate str to str")
  end.
End Transport.
End Full.

(** ** A sample remote

    Bodies are JSON texts of values; [sample_loads] is [json.loads]
    restricted to the bodies of a table. *)

Definition dq : string := String "034"%char EmptyString.

(** [json.dumps(v)] on values whose text needs no escape. *)
Fixpoint json_dumps (v : pyval) : string :=
  match v with
  | PyNone => "null"
  | PyBool true => "true"
  | PyBool false => "false"
  | PyInt z => str_int z
  | PyStr s => dq +:+ s +:+ dq
  | PyList l => "[" +:+ join ", " (map json_dumps l) +:+ "]"
  | PyDict d =>
    "{" +:+ join ", " (map (λ kv, dq +:+ kv.1 +:+ dq +:+ ": " +:+ json_dumps kv.2) d)
    +:+ "}"
  end.

Definition sample_loads (table : list pyval) (text : string) : option pyval :=
  List.find (λ v, String.eqb (json_dumps v) text) table.

(** A remote that answers every route of [routes] at once with the
    given status and refuses any other URL. *)
Definition sample_net (status : Z) (routes : list (string * pyval))
  (url : string) (attempt : nat) : outcome :=
  match alist_get url routes with
  | Some v => Answers (Response status [] (Bytes (json_dumps v)))
  | None => Fails ConnectionError "connection refused"
  end.

Definition sample_client : Session :=
  Session_init "https://api"
    {| cert_file_path := "user.p12"; cert_password := "secret";
       cons3rt_token := "token" |}.

Definition run (id : Z) (name status : string) : pyval :=
  PyDict [("id", PyInt id); ("name", PyStr name); ("fapStatus", PyStr status)].

Definition run_detail (id : Z) (name : string) (host_ids : list Z) : pyval :=
  PyDict [("id", PyInt id); ("name", PyStr name);
          ("deploymentRunHosts", PyList (map (λ h, PyDict [("id", PyInt h)]) host_ids))].

Definition host_detail (id : Z) (role : string) : pyval :=
  PyDict [("id", PyInt id); ("systemRole", PyStr role)].

(** Two reserved runs, with two hosts and one host, and a run that is
    not reserved, with five. *)
Definition sample_routes : list (string * pyval) :=
  [("https://api/api/drs?search_type=SEARCH_AVAILABLE&in_project=true",
    PyList [run 11 "alpha" "RESERVED"; run 13 "gamma" "ERROR"; run 12 "beta" "RESERVED"]);
   ("https://api/api/drs/11", run_detail 11 "alpha" [5; 3]%Z);
   ("https://api/api/drs/12", run_detail 12 "beta" [4]%Z);
   ("https://api/api/drs/13", run_detail 13 "gamma" [6; 7; 8; 9; 10]%Z);
   ("https://api/api/drs/11/host/5", host_detail 5 "web");
   ("https://api/api/drs/11/host/3", host_detail 3 "db");
   ("https://api/api/drs/12/host/4", host_detail 4 "cache")].

Definition sample_table : list pyval := map snd sample_routes.

(** ** Vocabulary of the statements *)

Definition fails (o : outcome) : Prop :=
  match o with
  | Fails _ _ => True
  | Answers _ => False
  end.

(** The [err_msg] of attempt [attempt_num]. *)
Definition err_msg_of (o : outcome) (attempt_num : nat) : string :=
  match o with
  | Fails _ e => attempt_failure "RequestException" attempt_num e
  | Answers _ => ""
  end.

Section Attempts.
Variable net : string → nat → outcome.
Variable self : Session.
Variable url : string.

(** What [n] failed attempts, from attempt [a] on, add to the tally. *)
Fixpoint tally (a n : nat) : string :=
  match n with
  | 0 => ""
  | S n' => err_msg_of (net url a) a +:+ nl +:+ tally (S a) n'
  end.

(** The events of [n] failed attempts, from attempt [a] on. *)
Fixpoint retry_events (a n : nat) : list event :=
  match n with
  | 0 => []
  | S n' =>
    EvGet url :: EvPrint (err_msg_of (net url a) a)
    :: EvSleep (retry_time_sec self) :: retry_events (S a) n'
  end.

(** The first of the attempts [a, a + n) that is answered. *)
Fixpoint first_answer (a n : nat) : option (nat * response) :=
  match n with
  | 0 => None
  | S n' =>
    match net url a with
    | Answers r => Some (a, r)
    | Fails _ _ => first_answer (S a) n'
    end
  end.
End Attempts.

(** The error of an exhausted retry budget. *)
Definition exhausted (self : Session) (err_msg_tally : string) : exn :=
  Cons3rtClientError
    ("Max attempts exceeded: " +:+ str_nat (max_retry_attempts self) +:+ nl
     +:+ err_msg_tally).

Definition is_get (e : event) : bool :=
  match e with EvGet _ => true | _ => false end.

Definition is_sleep (e : event) : bool :=
  match e with EvSleep _ => true | _ => false end.

Definition count_gets (evs : list event) : nat := length (List.filter is_get evs).
Definition slept (evs : list event) : list nat :=
  omap (λ e, match e with EvSleep s => Some s | _ => None end) evs.

(** A remote whose first [n] attempts time out and whose later ones
    answer [r]. *)
Definition answers_after (n : nat) (r : response) (url : string) (attempt : nat)
  : outcome :=
  if (attempt <=? n)%nat then Fails Timeout "timed out" else Answers r.

Definition ok_response : response := Response 200 [] (Bytes "[]").

(** The text [parse_response] works with: the body when there is one. *)
Definition decoded_text (c : body) : option string :=
  match c with
  | NoBody => None
  | Bytes b | Text b => if String.eqb b "" then None else Some b
  end.

(** The body, if [bytes], is UTF-8. *)
Definition decodable (c : body) : Prop :=
  match c with
  | Bytes b => utf8_valid b = true
  | _ => True
  end.

Definition success_status (status : Z) : Prop := status = 200%Z ∨ status = 202%Z.

(** Two outcomes that differ at most in the status code of the answer. *)
Definition same_but_status (o o' : outcome) : Prop :=
  match o, o' with
  | Answers r, Answers r' => headers r = headers r' ∧ content r = content r'
  | Fails c e, Fails c' e' => c = c' ∧ e = e'
  | _, _ => False
  end.

(** Two endings of [http_get] that a caller reading only the body
    cannot tell apart. *)
Definition same_body (r r' : io event response) : Prop :=
  r.1 = r'.1 ∧
  match r.2, r'.2 with
  | Ok x, Ok x' => content x = content x'
  | Raise e, Raise e' => e = e'
  | Hang, Hang => True
  | _, _ => False
  end.

Definition not_found : response :=
  Response 404 [("Content-Type", "text/plain")] (Bytes "no such run").

(** The record has no ['systemRole'] key. *)
Definition role_absent (host : pyval) : Prop :=
  ∃ d, host = PyDict d ∧ alist_get "systemRole" d = None.

(** The record has a ['systemRole'] that is empty: [''], [None], ... *)
Definition role_empty (host : pyval) : Prop :=
  ∃ d v, host = PyDict d ∧ alist_get "systemRole" d = Some v ∧ py_truthy v = false.

(** The call names a host by the non-empty ['systemRole'] of one of [hosts]. *)
Definition names_a_role (hosts : list pyval) (c : sink_call) : Prop :=
  py_truthy (call_hostname c) = true ∧
  ∃ host, host ∈ hosts ∧ py_getitem host "systemRole" = Ok (call_hostname c).

(** What holds of the futures of a pool while its tasks complete. *)
Definition pool_inv {A} (tasks : list (io event A))
  (st : list event * list (@future A)) : Prop :=
  length st.2 = length tasks ∧
  ∀ i t, tasks !! i = Some t →
         st.2 !! i = Some None ∨ st.2 !! i = Some (Some t.2).

(** The run has a ['fapStatus'] other than ["RESERVED"]. *)
Definition not_reserved (dr : pyval) : Prop :=
  ∃ status, py_getitem dr "fapStatus" = Ok status ∧ status ≠ PyStr "RESERVED".

(** [id] is the ['id'] of a run of [drs] whose ['fapStatus'] is ["RESERVED"]. *)
Definition reserved_id (drs : list pyval) (id : pyval) : Prop :=
  ∃ dr, dr ∈ drs ∧ py_getitem dr "fapStatus" = Ok (PyStr "RESERVED") ∧
        py_getitem dr "id" = Ok id.

(** The record carries the pair [{drId: id, drName: name}]. *)
Definition tagged (id name : pyval) (record : pyval) : Prop :=
  py_getitem record "drId" = Ok id ∧ py_getitem record "drName" = Ok name.

Section FetchResult.
Variable net : string → nat → outcome.
Variable json_loads : string → option pyval.
Variable client : Session.

(** The ending of [fan_out], the pools taken away: each future holds
    the ending of its task. *)
Definition fan_out_result (drs : list pyval) : result (list pyval) :=
  let submitted := submit_runs drs in
  let* _ := submitted.2 in
  let* dr_hosts :=
    gather_extend
      (map (λ id, Some (get_dr_hosts net json_loads client id).2) submitted.1) in
  let submitted := submit_hosts dr_hosts in
  let* _ := submitted.2 in
  gather_append
    (map (λ a, Some (host_task net json_loads client a).2) submitted.1).
End FetchResult.

(** Keyed elements whose keys are integers, and their order. *)
Definition int_key (kx : pyval * pyval) : Prop := ∃ i, kx.1 = PyInt i.

Definition key_le (kx ky : pyval * pyval) : Prop :=
  ∃ i j, kx.1 = PyInt i ∧ ky.1 = PyInt j ∧ (i ≤ j)%Z.

(** The ['id'] of the record is the integer [i]. *)
Definition has_id (record : pyval) (i : Z) : Prop :=
  py_getitem record "id" = Ok (PyInt i).

(** What [get_dr_hosts] and [get_dr_host_details] do to a record:
    the two [update] calls, ['drId'] first. *)
Definition stamp (id name : pyval) (d : dict) : dict :=
  dict_update [("drName", name)] (dict_update [("drId", id)] d).

(** [record] is the [dict] [original] after the two updates. *)
Definition stamped (id name original record : pyval) : Prop :=
  ∃ d, original = PyDict d ∧ record = PyDict (stamp id name d).

Section Tagging.
Variable net : string → nat → outcome.
Variable json_loads : string → option pyval.
Variable client : Session.

(** [name] is the ['name'] of the run the remote describes under [id]. *)
Definition run_name (id name : pyval) : Prop :=
  ∃ deployment_run,
    (get_json net json_loads client ("/api/drs/" +:+ py_str id)).2 = Ok deployment_run ∧
    py_getitem deployment_run "name" = Ok name.

(** [stubs] are the hosts [get_dr_hosts] returns for the run [id], each
    carrying the id and the name of the run. *)
Definition hosts_of_run (id : pyval) (stubs : list pyval) : Prop :=
  ∃ v, (get_dr_hosts net json_loads client id).2 = Ok v ∧ py_iter v = Ok stubs ∧
       Forall (λ stub, ∃ name, run_name id name ∧ tagged id name stub) stubs.

(** [record] is what [get_dr_host_details] returns for the host [stub]
    of a run, and carries the pair [stub] carries. *)
Definition detail_of (stub record : pyval) : Prop :=
  ∃ id name hid,
    tagged id name stub ∧ py_getitem stub "id" = Ok hid ∧
    (get_dr_host_details net json_loads client id hid name).2 = Ok record ∧
    tagged id name record.
End Tagging.

(** A remote whose first attempt meets a certificate failure and whose
    later ones answer [r]. *)
Definition ssl_then_answers (r : response) (url : string) (attempt : nat) : outcome :=
  if (attempt <=? 1)%nat then Fails SSLError "certificate verify failed" else Answers r.

(** A response whose body is not UTF-8. *)
Definition garbled : response :=
  Response 200 [] (Bytes (String (ascii_of_N 255) EmptyString)).

(** A remote with one run that has no name and no host. *)
Definition nameless_routes : list (string * pyval) :=
  [("https://api/api/drs/7", PyDict [("id", PyInt 7); ("deploymentRunHosts", PyList [])])].

(** A remote with one reserved run of one host whose detail has no ['id']. *)
Definition idless_routes : list (string * pyval) :=
  [("https://api/api/drs?search_type=SEARCH_AVAILABLE&in_project=true",
    PyList [run 21 "delta" "RESERVED"]);
   ("https://api/api/drs/21", run_detail 21 "delta" [8]%Z);
   ("https://api/api/drs/21/host/8", PyDict [("systemRole", PyStr "web")])].

(** The ['id'] of the record is the integer [i], as a test. *)
Definition id_is (i : Z) (record : pyval) : bool :=
  match py_getitem record "id" with
  | Ok (PyInt j) => (i =? j)%Z
  | _ => false
  end.

Definition key_is (i : Z) (kx : pyval * pyval) : bool :=
  match kx.1 with
  | PyInt j => (i =? j)%Z
  | _ => false
  end.

(** The events of the tasks whose futures are completed. *)
Definition ran {A} (tasks : list (io event A)) (futures : list (@future A))
  : list event :=
  concat (zip_with (λ t f, match f with Some _ => t.1 | None => [] end) tasks futures).

(** ** Vocabulary of the plugin *)

(** A configuration with the three credentials as plain text. *)
Definition sample_options (credential_type : string) : option string :=
  alist_get credential_type
    [("cert_file_path", "user.p12"); ("cert_password", "secret");
     ("cons3rt_token", "token")].

(** The same without the token. *)
Definition options_without_token (credential_type : string) : option string :=
  alist_get credential_type
    [("cert_file_path", "user.p12"); ("cert_password", "secret")].

(** The same with the token set to the empty text. *)
Definition options_with_empty_token (credential_type : string) : option string :=
  alist_get credential_type
    [("cert_file_path", "user.p12"); ("cert_password", "secret");
     ("cons3rt_token", "")].

(** The three credential options are set, which is what the check of
    required options that [_read_config_data] runs leaves. *)
Definition credentials_set (get_option : string → option string) : Prop :=
  ∀ credential_type,
    credential_type ∈ ["cert_file_path"; "cert_password"; "cons3rt_token"] →
    is_Some (get_option credential_type).

Definition never_template (v : option string) : bool := false.
Definition render (v : option string) : ansible (option string) := Fine v.
Definition same_name (group : string) : string := group.
Definition keep_keys (ignore_list : list string) (d : dict) : dict := d.

(** A conversion that writes the one camel-case key of the sample
    records in snake case. *)
Definition snake_key (k : string) : string :=
  if String.eqb k "systemRole" then "system_role" else k.

Definition snake_keys (ignore_list : list string) (d : dict) : dict :=
  map (λ kv, (snake_key kv.1, kv.2)) d.
Definition cache_key_of (path : string) : string := "cons3rt_" +:+ path.

(** The check of [_set_credentials]. *)
Definition all_truthy (a b c : option string) : bool :=
  Plugin.truthy a && Plugin.truthy b && Plugin.truthy c.

Definition insufficient : string :=
  "Insufficient credentials found. Please provide them "
  +:+ "in your inventory configuration file.".

Section Configured.
Variable get_option : string → option string.
Variable is_template : option string → bool.
Variable template : option string → ansible (option string).

(** The three credential options resolve to the non-empty texts [a],
    [b] and [c]. *)
Definition configured (a b c : string) : Prop :=
  Plugin.credential get_option is_template template "cert_file_path" = Fine (Some a) ∧
  Plugin.credential get_option is_template template "cert_password" = Fine (Some b) ∧
  Plugin.credential get_option is_template template "cons3rt_token" = Fine (Some c) ∧
  a ≠ "" ∧ b ≠ "" ∧ c ≠ "".
End Configured.

Section FreshRun.
Variable net : string → nat → outcome.
Variable json_loads : string → option pyval.
Variable camel_dict_to_snake_dict : list string → dict → dict.
Variable add_group : string → string.

(** Query, populate, and store the results under [cache_key] when
    [store] is set. *)
Definition fresh_run (client : Session) (cache_key : string) (store : bool)
  (order1 order2 : list nat) : io plugin_event unit :=
  do results <-
     (do queried <- relabel Net (_query net json_loads client order1 order2) ;
      lift (py_dict queried)) ;
  relabel Inventory (Plugin._populate camel_dict_to_snake_dict add_group results) ;;
  if store then emit (CacheSet cache_key results) else ret tt.
End FreshRun.

(** An event that is not a cache write is found in none of the parts. *)
Ltac not_a_cache_set H :=
  repeat (apply elem_of_app in H as [H|H]);
  try (apply list_elem_of_fmap in H as (? & ? & ?));
  try (apply elem_of_nil in H).

(** A 404 whose body is not UTF-8. *)
Definition garbled_not_found : response :=
  Response 404 [] (Bytes (String (ascii_of_N 255) EmptyString)).

(** ** Vocabulary of the full transport and of the fetch's events *)

(** How the attempt that ends [http_get] ended, short of giving up. *)
Inductive stop :=
| Answered (response : response)
| ChannelRaised (e : exn)
| GetEscaped (e : exn).

Section FullAttempts.
Variable Pkcs12Adapter : string → string → nat → option exn.
Variable net : string → nat → outcome.
Variable escapes : string → nat → option exn.
Variable credentials : list (string * string).
Variable url : string.

(** What building the channel of an attempt raises, if anything: the
    [KeyError] of a credential that is not there, or what the adapter
    raises. *)
Definition channel_raises (attempt_num : nat) : option exn :=
  match alist_get "cert_file_path" credentials with
  | None => Some (KeyError "cert_file_path")
  | Some pkcs12_filename =>
    match alist_get "cert_password" credentials with
    | None => Some (KeyError "cert_password")
    | Some pkcs12_password =>
      match Pkcs12Adapter pkcs12_filename pkcs12_password attempt_num with
      | Some e => Some e
      | None =>
        match alist_get "cons3rt_token" credentials with
        | None => Some (KeyError "cons3rt_token")
        | Some _ => None
        end
      end
    end
  end.

(** The attempt builds its channel and its GET fails inside
    [requests.exceptions]: the loop goes on. *)
Definition retried (attempt_num : nat) : Prop :=
  channel_raises attempt_num = None ∧ escapes url attempt_num = None ∧
  fails (net url attempt_num).

(** The first of the attempts [a, a + n) that is not retried. *)
Fixpoint first_stop (a n : nat) : option (nat * stop) :=
  match n with
  | 0 => None
  | S n' =>
    match channel_raises a with
    | Some e => Some (a, ChannelRaised e)
    | None =>
      match escapes url a with
      | Some e => Some (a, GetEscaped e)
      | None =>
        match net url a with
        | Answers r => Some (a, Answered r)
        | Fails _ _ => first_stop (S a) n'
        end
      end
    end
  end.

(** What holds at the attempt [k] that stopped the loop. *)
Definition stopped_at (k : nat) (s : stop) : Prop :=
  match s with
  | Answered r =>
    channel_raises k = None ∧ escapes url k = None ∧ net url k = Answers r
  | ChannelRaised e => channel_raises k = Some e
  | GetEscaped e => channel_raises k = None ∧ escapes url k = Some e
  end.
End FullAttempts.

(** The events and the ending of [http_get] when attempt [k] stops the
    loop with [s], the attempts before it having been retried. *)
Definition ending_of (net : string → nat → outcome) (self : Session) (url : string)
  (a k : nat) (s : stop) : io event response :=
  match s with
  | Answered r => (retry_events net self url a (k - a) ++ [EvGet url], Ok r)
  | ChannelRaised e => (retry_events net self url a (k - a), Raise e)
  | GetEscaped e => (retry_events net self url a (k - a) ++ [EvGet url], Raise e)
  end.

(** An adapter that finds no file, and one that always builds. *)
Definition no_such_file (pkcs12_filename pkcs12_password : string) (attempt_num : nat)
  : option exn :=
  Some (OtherError "FileNotFoundError"
          ("[Errno 2] No such file or directory: " +:+ repr_str pkcs12_filename)).

Definition builds (pkcs12_filename pkcs12_password : string) (attempt_num : nat)
  : option exn := None.

Definition nothing_escapes (url : string) (attempt_num : nat) : option exn := None.

Definition sample_credentials : list (string * string) :=
  [("cert_file_path", "user.p12"); ("cert_password", "secret");
   ("cons3rt_token", "token")].

Section FetchEvents.
Variable net : string → nat → outcome.
Variable json_loads : string → option pyval.
Variable client : Session.

End FetchEvents.

(** * Facts *)

(** ** Text and the monad *)

Lemma append_nil_l (s : string) : "" +:+ s = s.
Proof. done. Qed.

Lemma append_cons (c : ascii) (s t : string) : String c s +:+ t = String c (s +:+ t).
Proof. done. Qed.

Lemma append_nil_r (s : string) : s +:+ "" = s.
Proof. induction s as [|c s IH]; [done | by rewrite append_cons, IH]. Qed.

Lemma append_assoc (s t u : string) : (s +:+ t) +:+ u = s +:+ t +:+ u.
Proof. induction s as [|c s IH]; [done | by rewrite !append_cons, IH]. Qed.

Lemma occurs_in_here (t post : string) : occurs_in t (t +:+ post).
Proof. exists "", post. done. Qed.

Lemma occurs_in_app_r (t pre s : string) : occurs_in t s → occurs_in t (pre +:+ s).
Proof.
  intros (a & b & ->). exists (pre +:+ a), b. by rewrite append_assoc.
Qed.

Lemma occurs_in_app_l (t s post : string) : occurs_in t s → occurs_in t (s +:+ post).
Proof.
  intros (a & b & ->). exists a, (b +:+ post). by rewrite !append_assoc.
Qed.

Lemma bind_ret {E A B} (a : A) (k : A → io E B) : bind (ret a) k = k a.
Proof. unfold bind, ret. by destruct (k a). Qed.

Lemma bind_emit {E B} (e : E) (k : unit → io E B) :
  bind (emit e) k = (e :: (k tt).1, (k tt).2).
Proof. unfold bind, emit. by destruct (k tt). Qed.

Lemma bind_lift_ok {E A B} (a : A) (k : A → io E B) : bind (lift (Ok a)) k = k a.
Proof. apply bind_ret. Qed.

Lemma bind_result {E A B} (c : io E A) (k : A → io E B) :
  (bind c k).2 = match c.2 with
                 | Ok a => (k a).2
                 | Raise e => Raise e
                 | Hang => Hang
                 end.
Proof.
  destruct c as [evs [a|e|]]; unfold bind; simpl; [by destruct (k a) | done | done].
Qed.

Lemma bind_events {E A B} (c : io E A) (k : A → io E B) :
  (bind c k).1 = (c.1 ++ match c.2 with
                         | Ok a => (k a).1
                         | _ => []
                         end)%list.
Proof.
  destruct c as [evs [a|e|]]; unfold bind; simpl;
    [by destruct (k a) | by rewrite app_nil_r | by rewrite app_nil_r].
Qed.

(** ** Transport *)

Lemma issubclass_RequestException (c : exc_class) : issubclass c RequestException = true.
Proof. by destruct c. Qed.

Section TransportFacts.
Variable net : string → nat → outcome.
Variable self : Session.
Variable url : string.

Lemma first_answer_spec a n k r :
  first_answer net url a n = Some (k, r) →
  a ≤ k < a + n ∧ net url k = Answers r ∧ ∀ j, a ≤ j < k → fails (net url j).
Proof.
  revert a. induction n as [|n IH]; intros a; simpl; [done|].
  destruct (net url a) as [r'|c e] eqn:Ha.
  - intros [= <- <-]. split; [lia|]. split; [done|]. intros j ?; lia.
  - intros H. destruct (IH _ H) as (Hk & Hr & Hj).
    split; [lia|]. split; [done|]. intros j Hjk.
    destruct (decide (j = a)) as [->|]; [by rewrite Ha|]. apply Hj; lia.
Qed.

Lemma first_answer_none a n :
  first_answer net url a n = None → ∀ j, a ≤ j < a + n → fails (net url j).
Proof.
  revert a. induction n as [|n IH]; intros a; simpl; [intros _ j ?; lia|].
  destruct (net url a) as [r'|c e] eqn:Ha; [done|].
  intros H j Hj. destruct (decide (j = a)) as [->|]; [by rewrite Ha|].
  apply (IH _ H); lia.
Qed.

(** The loop in closed form: with [n] attempts left before the
    attempt number reaches the maximum, and more fuel than that, it
    returns the first answer or raises after the [n] failures. *)
Lemma http_get_loop_closed n : ∀ a t fuel,
  a + n = max_retry_attempts self → n < fuel →
  http_get_loop net self fuel a t url =
  match first_answer net url a n with
  | Some (k, r) => (retry_events net self url a (k - a) ++ [EvGet url], Ok r)
  | None => (retry_events net self url a n, Raise (exhausted self (t +:+ tally net url a n)))
  end.
Proof.
  induction n as [|n IH]; intros a t fuel Ham Hfuel;
    (destruct fuel as [|fuel]; [lia|]); cbn [http_get_loop first_answer].
  - replace (max_retry_attempts self <=? a)%nat with true
      by (symmetry; apply Nat.leb_le; lia).
    cbn [tally retry_events]. by rewrite append_nil_r.
  - replace (max_retry_attempts self <=? a)%nat with false
      by (symmetry; apply Nat.leb_gt; lia).
    rewrite bind_emit. destruct (net url a) as [r|c e] eqn:Ha.
    + by rewrite Nat.sub_diag.
    + rewrite issubclass_RequestException, bind_ret, bind_emit, bind_emit.
      rewrite append_nil_l, (IH (a + 1)) by lia.
      replace (a + 1) with (S a) by lia.
      destruct (first_answer net url (S a) n) as [[k r]|] eqn:Hfa; simpl.
      * apply first_answer_spec in Hfa as (Hk & _ & _).
        replace (k - a) with (S (k - S a)) by lia. simpl. by rewrite Ha.
      * by rewrite Ha, !append_assoc.
Qed.

Lemma count_gets_retry_events a n :
  count_gets (retry_events net self url a n) = n.
Proof.
  revert a. induction n as [|n IH]; intros a; [done|].
  unfold count_gets in *. simpl. by rewrite IH.
Qed.

Lemma count_gets_app evs evs' :
  count_gets (evs ++ evs') = count_gets evs + count_gets evs'.
Proof. unfold count_gets. by rewrite List.filter_app, length_app. Qed.

Lemma slept_retry_events a n :
  slept (retry_events net self url a n) = replicate n (retry_time_sec self).
Proof.
  revert a. induction n as [|n IH]; intros a; [done|].
  unfold slept in *. simpl. by rewrite IH.
Qed.
End TransportFacts.

Section HttpGetFacts.
Variable net : string → nat → outcome.
Variable self : Session.
Variable target : string.

Let url := base self +:+ target.

Lemma first_answer_intro a n k r :
  a ≤ k < a + n → net url k = Answers r →
  (∀ j, a ≤ j < k → fails (net url j)) →
  first_answer net url a n = Some (k, r).
Proof.
  revert a. induction n as [|n IH]; intros a Hk Hr Hj; [lia|]. simpl.
  destruct (decide (k = a)) as [->|Hne]; [by rewrite Hr|].
  specialize (Hj a) as Ha. destruct (net url a); [destruct Ha; lia|].
  apply IH; [lia | done | intros j ?; apply Hj; lia].
Qed.

(** [http_get] on a [str] target, in closed form. *)
Lemma http_get_closed :
  1 ≤ max_retry_attempts self →
  http_get net self (PyStr target) =
  match first_answer net url 1 (max_retry_attempts self - 1) with
  | Some (k, r) => (retry_events net self url 1 (k - 1) ++ [EvGet url], Ok r)
  | None =>
    (retry_events net self url 1 (max_retry_attempts self - 1),
     Raise (exhausted self (tally net url 1 (max_retry_attempts self - 1))))
  end.
Proof.
  intros Hm. unfold http_get, validate_target. cbn [is_None isinstance_str negb orb].
  rewrite bind_ret.
  by rewrite (http_get_loop_closed net self url (max_retry_attempts self - 1)) by lia.
Qed.

(** Fewer failures than the budget allows, then an answer: the answer
    is returned, after one sleep per failure. *)
Lemma http_get_retry_success N r :
  S N < max_retry_attempts self →
  (∀ j, 1 ≤ j ≤ N → fails (net url j)) →
  net url (S N) = Answers r →
  http_get net self (PyStr target)
  = (retry_events net self url 1 N ++ [EvGet url], Ok r).
Proof.
  intros Hm Hfail Hr. rewrite http_get_closed by lia.
  rewrite (first_answer_intro 1 _ (S N) r); [| lia | done | intros j ?; apply Hfail; lia].
  by replace (S N - 1) with N by lia.
Qed.

(** Every attempt the loop makes fails: the error carries the tally
    of the attempts made, one fewer than [max_retry_attempts]. *)
Lemma http_get_exhaustion :
  1 ≤ max_retry_attempts self →
  (∀ j, 1 ≤ j < max_retry_attempts self → fails (net url j)) →
  http_get net self (PyStr target)
  = (retry_events net self url 1 (max_retry_attempts self - 1),
     Raise (exhausted self (tally net url 1 (max_retry_attempts self - 1)))).
Proof.
  intros Hm Hfail. rewrite http_get_closed by lia.
  destruct (first_answer _ _ _ _) as [[k r]|] eqn:Hfa; [|done].
  apply first_answer_spec in Hfa as (Hk & Hr & _).
  specialize (Hfail k). rewrite Hr in Hfail. destruct Hfail. lia.
Qed.
End HttpGetFacts.

(** C1: when every attempt is refused, [http_get] makes nine GETs, not
    ten, then raises [Cons3rtClientError]; the message names the maximum
    10 and carries the failure messages of attempts 1 to 9, and none of
    a tenth attempt. *)
Theorem C1_exhaustion_carries_nine_failure_messages :
  let r := http_get (sample_net 200 []) sample_client (PyStr "/api/drs") in
  count_gets r.1 = 9 ∧
  ∃ msg, r.2 = Raise (Cons3rtClientError msg) ∧
         occursb "Max attempts exceeded: 10" msg = true ∧
         occursb "RequestException on GET attempt #9" msg = true ∧
         occursb "attempt #10" msg = false.
Proof. split; [by vm_compute|]. eexists. by vm_compute. Qed.

(** C2: when attempts 1 to 9 time out and the tenth would be answered,
    [http_get] does not return the answer: it sleeps nine times, makes
    no tenth GET and raises [Cons3rtClientError]; with one failure less
    the answer is returned. *)
Theorem C2_answer_after_nine_failures_is_lost :
  let r := http_get (answers_after 9 ok_response) sample_client (PyStr "/api/drs") in
  (∃ msg, r.2 = Raise (Cons3rtClientError msg)) ∧
  count_gets r.1 = 9 ∧
  slept r.1 = replicate 9 5 ∧
  (http_get (answers_after 8 ok_response) sample_client (PyStr "/api/drs")).2
  = Ok ok_response.
Proof. split; [eexists; by vm_compute|]. by vm_compute. Qed.

(** ** The transport in full *)

Section FullFacts.
Variable Pkcs12Adapter : string → string → nat → option exn.
Variable net : string → nat → outcome.
Variable escapes : string → nat → option exn.
Variable self : Session.
Variable credentials : list (string * string).
Variable url : string.

Lemma channel_steps {A} (attempt_num : nat) (k : io event A) :
  (do pkcs12_filename <-
      lift (Plugin.credentials_getitem credentials "cert_file_path") ;
   do pkcs12_password <-
      lift (Plugin.credentials_getitem credentials "cert_password") ;
   lift (match Pkcs12Adapter pkcs12_filename pkcs12_password attempt_num with
         | Some e => Raise e
         | None => Ok tt
         end) ;;
   do token <- lift (Plugin.credentials_getitem credentials "cons3rt_token") ;
   k)
  = match channel_raises Pkcs12Adapter credentials attempt_num with
    | Some e => raise e
    | None => k
    end.
Proof.
  unfold channel_raises, Plugin.credentials_getitem.
  destruct (alist_get "cert_file_path" credentials) as [f|]; [|done].
  rewrite bind_lift_ok.
  destruct (alist_get "cert_password" credentials) as [p|]; [|done].
  rewrite bind_lift_ok.
  destruct (Pkcs12Adapter f p attempt_num) as [e|]; [done|].
  rewrite bind_lift_ok.
  destruct (alist_get "cons3rt_token" credentials) as [t|]; [|done].
  by rewrite bind_lift_ok.
Qed.

Lemma first_stop_spec a n k s :
  first_stop Pkcs12Adapter net escapes credentials url a n = Some (k, s) →
  a ≤ k < a + n ∧
  (∀ j, a ≤ j < k → retried Pkcs12Adapter net escapes credentials url j) ∧
  stopped_at Pkcs12Adapter net escapes credentials url k s.
Proof.
  revert a. induction n as [|n IH]; intros a; cbn [first_stop]; [done|].
  destruct (channel_raises Pkcs12Adapter credentials a) as [e|] eqn:Hc.
  { intros [= <- <-]. split; [lia|]. split; [intros j ?; lia|done]. }
  destruct (escapes url a) as [e|] eqn:He.
  { intros [= <- <-]. split; [lia|]. split; [intros j ?; lia|done]. }
  destruct (net url a) as [r|c e] eqn:Hn.
  { intros [= <- <-]. split; [lia|]. split; [intros j ?; lia|done]. }
  intros H. destruct (IH _ H) as (Hk & Hj & Hs).
  split; [lia|]. split; [|done]. intros j Hjk.
  destruct (decide (j = a)) as [->|]; [|apply Hj; lia].
  unfold retried. by rewrite Hc, He, Hn.
Qed.

Lemma first_stop_none a n :
  first_stop Pkcs12Adapter net escapes credentials url a n = None →
  ∀ j, a ≤ j < a + n → retried Pkcs12Adapter net escapes credentials url j.
Proof.
  revert a. induction n as [|n IH]; intros a; cbn [first_stop]; [intros _ j ?; lia|].
  destruct (channel_raises Pkcs12Adapter credentials a) as [e|] eqn:Hc; [done|].
  destruct (escapes url a) as [e|] eqn:He; [done|].
  destruct (net url a) as [r|c e] eqn:Hn; [done|].
  intros H j Hj. destruct (decide (j = a)) as [->|]; [|apply (IH _ H); lia].
  unfold retried. by rewrite Hc, He, Hn.
Qed.

(** The loop in closed form. *)
Lemma Full_http_get_loop_closed n : ∀ a t fuel,
  a + n = max_retry_attempts self → n < fuel →
  Full.http_get_loop Pkcs12Adapter net escapes self credentials fuel a t url =
  match first_stop Pkcs12Adapter net escapes credentials url a n with
  | Some (k, s) => ending_of net self url a k s
  | None =>
    (retry_events net self url a n, Raise (exhausted self (t +:+ tally net url a n)))
  end.
Proof.
  induction n as [|n IH]; intros a t fuel Ham Hfuel;
    (destruct fuel as [|fuel]; [lia|]); cbn [Full.http_get_loop first_stop].
  - replace (max_retry_attempts self <=? a)%nat with true
      by (symmetry; apply Nat.leb_le; lia).
    cbn [tally retry_events]. by rewrite append_nil_r.
  - replace (max_retry_attempts self <=? a)%nat with false
      by (symmetry; apply Nat.leb_gt; lia).
    rewrite channel_steps.
    destruct (channel_raises Pkcs12Adapter credentials a) as [e|] eqn:Hc.
    { cbn [ending_of]. by rewrite Nat.sub_diag. }
    rewrite bind_emit.
    destruct (escapes url a) as [e|] eqn:He.
    { cbn [ending_of]. by rewrite Nat.sub_diag. }
    destruct (net url a) as [r|c e] eqn:Ha.
    { cbn [ending_of]. by rewrite Nat.sub_diag. }
    rewrite issubclass_RequestException, bind_ret, bind_emit, bind_emit.
    rewrite append_nil_l, (IH (a + 1)) by lia.
    replace (a + 1) with (S a) by lia.
    destruct (first_stop Pkcs12Adapter net escapes credentials url (S a) n)
      as [[k s]|] eqn:Hfs.
    + apply first_stop_spec in Hfs as (Hk & _ & _).
      destruct s; cbn [ending_of fst snd];
        replace (k - a) with (S (k - S a)) by lia; cbn [retry_events];
        by rewrite Ha.
    + cbn [fst snd retry_events tally]. by rewrite Ha, !append_assoc.
Qed.
End FullFacts.

Section FullRestricts.
Variable Pkcs12Adapter : string → string → nat → option exn.
Variable net : string → nat → outcome.
Variable escapes : string → nat → option exn.
Variable self : Session.
Variable credentials : list (string * string).
Hypothesis Hchannel : ∀ j, channel_raises Pkcs12Adapter credentials j = None.
Hypothesis Hescapes : ∀ url j, escapes url j = None.

Lemma Full_http_get_loop_restricts fuel : ∀ a t url,
  Full.http_get_loop Pkcs12Adapter net escapes self credentials fuel a t url
  = http_get_loop net self fuel a t url.
Proof.
  induction fuel as [|fuel IH]; intros a t url; [done|].
  cbn [Full.http_get_loop http_get_loop].
  destruct (max_retry_attempts self <=? a)%nat; [done|].
  rewrite channel_steps, Hchannel, Hescapes.
  destruct (net url a) as [r|c e]; [done|].
  by rewrite issubclass_RequestException, !bind_emit, !bind_ret, !bind_emit, IH.
Qed.

(** Where the three credentials are there, the adapter builds and
    [s.get] raises nothing outside [requests.exceptions], the method is
    [http_get] above. *)
Lemma Full_http_get_restricts target :
  Full.http_get Pkcs12Adapter net escapes self credentials target
  = http_get net self target.
Proof.
  unfold Full.http_get, http_get. destruct target; try done.
  by rewrite Full_http_get_loop_restricts.
Qed.
End FullRestricts.

(** The conditions hold of the sample credentials with an adapter that
    builds. *)
Lemma Full_http_get_sample (net : string → nat → outcome) (self : Session)
  (target : pyval) :
  Full.http_get builds net nothing_escapes self sample_credentials target
  = http_get net self target.
Proof. by apply Full_http_get_restricts. Qed.

(** C3, as stated, fails: when the certificate file is not there,
    constructing the adapter raises [FileNotFoundError] before the
    first GET and outside the [try]; [http_get] neither returns a
    response nor raises [Cons3rtClientError]. *)
Lemma C3_missing_certificate_file_raises_no_client_error :
  ¬ (∀ (Pkcs12Adapter : string → string → nat → option exn)
       (net : string → nat → outcome) (escapes : string → nat → option exn)
       (b : string) (c : Credentials) (credentials : list (string * string))
       (target : string),
        let r := Full.http_get Pkcs12Adapter net escapes (Session_init b c)
                               credentials (PyStr target) in
        (∃ response, r.2 = Ok response) ∨
        (∃ msg, r.2 = Raise (Cons3rtClientError msg))).
Proof.
  intros H.
  destruct (H no_such_file (sample_net 200 sample_routes) nothing_escapes
              "https://api" (Build_Credentials "user.p12" "secret" "token")
              sample_credentials "/api/drs")
    as [[response E]|[msg E]]; vm_compute in E; discriminate E.
Qed.

(** C3, amended: for every [str] target, every [dict] of credentials
    and every sequence of attempt outcomes, [http_get] of a session
    ends (with any fuel from 10 on, the loop gives the same ending) and
    makes at most 9 GETs.  Only a GET that fails inside
    [requests.exceptions] is retried.  Either one of attempts 1 to 9
    stops the loop, the attempts before it having been retried: it is
    answered, and the answer is returned; or building its channel
    raises (a credential is not in the [dict], or the adapter raises),
    and that exception is passed on before the GET of the attempt; or
    its GET raises outside [requests.exceptions], and that exception is
    passed on.  Or the nine attempts are retried, and [http_get] raises
    [Cons3rtClientError] with the tally of their nine messages. *)
Theorem C3_http_get_ends_within_nine_attempts
  (Pkcs12Adapter : string → string → nat → option exn)
  (net : string → nat → outcome) (escapes : string → nat → option exn)
  (b : string) (c : Credentials) (credentials : list (string * string))
  (target : string) :
  let self := Session_init b c in
  let url := b +:+ target in
  let r := Full.http_get Pkcs12Adapter net escapes self credentials (PyStr target) in
  r.2 ≠ Hang ∧
  (∀ fuel, 10 ≤ fuel →
           Full.http_get_loop Pkcs12Adapter net escapes self credentials fuel 1 "" url
           = r) ∧
  count_gets r.1 ≤ 9 ∧
  ((∃ k s,
       1 ≤ k ≤ 9 ∧
       (∀ j, 1 ≤ j < k → retried Pkcs12Adapter net escapes credentials url j) ∧
       stopped_at Pkcs12Adapter net escapes credentials url k s ∧
       r = match s with
           | Answered response =>
             (retry_events net self url 1 (k - 1) ++ [EvGet url], Ok response)
           | ChannelRaised e => (retry_events net self url 1 (k - 1), Raise e)
           | GetEscaped e =>
             (retry_events net self url 1 (k - 1) ++ [EvGet url], Raise e)
           end ∧
       count_gets r.1 = match s with
                        | ChannelRaised _ => k - 1
                        | _ => k
                        end)
   ∨ ((∀ j, 1 ≤ j ≤ 9 → retried Pkcs12Adapter net escapes credentials url j) ∧
      r = (retry_events net self url 1 9,
           Raise (Cons3rtClientError
                    ("Max attempts exceeded: 10" +:+ nl +:+ tally net url 1 9))) ∧
      count_gets r.1 = 9)).
Proof.
  intros self url r.
  assert (Hloop : ∀ fuel, 10 ≤ fuel →
            Full.http_get_loop Pkcs12Adapter net escapes self credentials fuel 1 "" url
            = match first_stop Pkcs12Adapter net escapes credentials url 1 9 with
              | Some (k, s) => ending_of net self url 1 k s
              | None =>
                (retry_events net self url 1 9,
                 Raise (exhausted self ("" +:+ tally net url 1 9)))
              end).
  { intros fuel Hfuel.
    by rewrite (Full_http_get_loop_closed Pkcs12Adapter net escapes self credentials
                  url 9 1 "" fuel) by (simpl; lia). }
  assert (Hr : r = Full.http_get_loop Pkcs12Adapter net escapes self credentials
                     11 1 "" url).
  { subst r. unfold Full.http_get, validate_target.
    cbn [is_None isinstance_str negb orb]. by rewrite bind_ret. }
  rewrite (Hloop 11) in Hr by lia.
  destruct (first_stop Pkcs12Adapter net escapes credentials url 1 9)
    as [[k s]|] eqn:Hfs.
  - pose proof (first_stop_spec _ _ _ _ _ _ _ _ _ Hfs) as (Hk & Hj & Hs).
    assert (Hcount : count_gets r.1 = match s with
                                      | ChannelRaised _ => k - 1
                                      | _ => k
                                      end).
    { rewrite Hr. destruct s; cbn [ending_of fst];
        rewrite ?count_gets_app, count_gets_retry_events;
        unfold count_gets; simpl; lia. }
    split; [rewrite Hr; by destruct s|].
    split; [intros fuel ?; by rewrite Hloop, Hr|].
    split; [rewrite Hcount; destruct s; lia|].
    left. exists k, s. split; [lia|]. split; [done|]. split; [done|].
    split; [rewrite Hr; by destruct s|done].
  - pose proof (first_stop_none _ _ _ _ _ _ _ Hfs) as Hj.
    assert (Hcount : count_gets r.1 = 9).
    { rewrite Hr. done. }
    split; [by rewrite Hr|]. split; [intros fuel ?; by rewrite Hloop, Hr|].
    split; [lia|]. right. split; [intros j ?; apply Hj; lia|]. by split.
Qed.

(** C8, as stated, fails: the empty string is a [str] and passes
    [validate_target]. *)
Lemma C8_empty_target_is_accepted :
  ¬ (∀ target : pyval,
        target = PyStr "" ∨ isinstance_str target = false →
        ∃ msg, (validate_target target).2 = Raise (Cons3rtClientError msg)).
Proof. intros H. destruct (H (PyStr "")) as [msg Hmsg]; [by left|]. done. Qed.

(** C8, amended: [validate_target] raises [Cons3rtClientError] exactly
    when the target is [None] or not a [str]; every [str], the empty one
    too, passes.  [http_get] validates first: a rejected target raises
    the same error with no event at all, so without network activity. *)
Theorem C8_validate_target_rejects_what_is_not_str
  (net : string → nat → outcome) (self : Session) (target : pyval) :
  match target with
  | PyStr _ => validate_target target = ret tt
  | _ =>
    validate_target target = raise (Cons3rtClientError "Invalid target arg provided") ∧
    http_get net self target = ([], Raise (Cons3rtClientError "Invalid target arg provided"))
  end.
Proof. by destruct target. Qed.

(** ** parse_response *)

Lemma parse_response_decoded (r : response) :
  decodable (content r) →
  (if body_truthy (content r) then
     match content r with
     | Bytes b => do s <- lift (decode_utf8 b); ret (Some s)
     | Text s => ret (Some s)
     | NoBody => ret None
     end
   else ret None) = (ret (decoded_text (content r)) : io event (option string)).
Proof.
  destruct (content r) as [|b|s]; simpl; intros Hdec; [done| |].
  - destruct (String.eqb b ""); simpl; [done|].
    unfold decode_utf8. rewrite Hdec. by rewrite bind_lift_ok.
  - by destruct (String.eqb s "").
Qed.

(** On a response whose body, if any, is UTF-8, [parse_response] raises
    [Cons3rtClientError] if and only if the status code is neither 200
    nor 202; the message then embeds the status code, the headers and,
    when there is a body, its text. *)
Lemma parse_response_checks_the_status
  (str_headers : list (string * string) → string) (r : response) :
  decodable (content r) →
  let out := (parse_response str_headers r).2 in
  ((∃ msg, out = Raise (Cons3rtClientError msg)) ↔ ¬ success_status (status_code r)) ∧
  (¬ success_status (status_code r) →
   ∃ msg, out = Raise (Cons3rtClientError msg) ∧
          occurs_in (str_int (status_code r)) msg ∧
          occurs_in (str_headers (headers r)) msg ∧
          ∀ text, decoded_text (content r) = Some text → occurs_in text msg) ∧
  (success_status (status_code r) → out = Ok (decoded_text (content r))).
Proof.
  intros Hdec out. subst out. unfold parse_response.
  rewrite (parse_response_decoded r Hdec), bind_ret. unfold success_status.
  destruct (Z.eqb_spec (status_code r) 200) as [E200|N200];
    [|destruct (Z.eqb_spec (status_code r) 202) as [E202|N202]]; simpl.
  - split; [|split]; [|tauto|done].
    split; [by intros [msg ?] | tauto].
  - split; [|split]; [|tauto|done].
    split; [by intros [msg ?] | tauto].
  - split; [|split]; [| |tauto].
    + split; [tauto | intros _; by eexists].
    + intros _. eexists. split; [done|].
      assert (Hbase : ∀ tail,
                occurs_in (str_int (status_code r))
                  ("Received HTTP code [" +:+ str_int (status_code r)
                   +:+ "] with headers:" +:+ nl +:+ str_headers (headers r) +:+ tail)
                ∧ occurs_in (str_headers (headers r))
                  ("Received HTTP code [" +:+ str_int (status_code r)
                   +:+ "] with headers:" +:+ nl +:+ str_headers (headers r) +:+ tail)).
      { intros tail. split.
        - apply occurs_in_app_r, occurs_in_here.
        - do 4 apply occurs_in_app_r. apply occurs_in_here. }
      destruct (decoded_text (content r)) as [text|] eqn:Htext.
      * destruct (String.eqb_spec text "") as [->|Hne].
        { destruct (content r) as [|b|b]; simpl in Htext; [done| |];
            destruct (String.eqb_spec b ""); congruence. }
        rewrite !append_assoc.
        destruct (Hbase (nl +:+ "and content:" +:+ nl +:+ text)) as [H1 H2].
        split; [done|]. split; [done|]. intros ? [= <-].
        do 8 apply occurs_in_app_r. exists "", "". by rewrite append_nil_r.
      * destruct (Hbase "") as [H1 H2]. rewrite append_nil_r in H1, H2. done.
Qed.

Lemma parse_response_undecodable
  (str_headers : list (string * string) → string) (r : response) :
  ¬ decodable (content r) → parse_response str_headers r = ([], Raise UnicodeDecodeError).
Proof.
  unfold parse_response, decodable. destruct (content r) as [|b|s]; [done| |done].
  intros Hb. cbn [body_truthy].
  destruct (String.eqb_spec b "") as [->|_]; [by destruct Hb|]. cbn [negb].
  unfold decode_utf8. by destruct (utf8_valid b).
Qed.

(** C9, as stated, fails: a 404 whose body is not UTF-8 makes
    [parse_response] raise [UnicodeDecodeError], not
    [Cons3rtClientError]; the body is decoded before the status code is
    looked at. *)
Lemma C9_undecodable_404_raises_another_error :
  ¬ (∀ (str_headers : list (string * string) → string) (r : response),
        (∃ msg, (parse_response str_headers r).2 = Raise (Cons3rtClientError msg))
        ↔ ¬ success_status (status_code r)).
Proof.
  intros H. destruct (proj2 (H str_of_headers garbled_not_found)) as [msg Hmsg].
  - by intros [?|?].
  - vm_compute in Hmsg. discriminate Hmsg.
Qed.

(** C9, amended: [parse_response] decodes first.  A [bytes] body that is
    not UTF-8 raises [UnicodeDecodeError], whatever the status code.
    Otherwise it raises [Cons3rtClientError] if and only if the status
    code is neither 200 nor 202, with a message that embeds the status
    code, the headers as [str] gives them and, when there is a body,
    its text; with status 200 or 202 it returns the decoded text, or
    [None] when there is no body. *)
Theorem C9_parse_response_decodes_then_checks_the_status
  (str_headers : list (string * string) → string) (r : response) :
  let out := (parse_response str_headers r).2 in
  (¬ decodable (content r) → out = Raise UnicodeDecodeError) ∧
  (decodable (content r) →
   ((∃ msg, out = Raise (Cons3rtClientError msg)) ↔ ¬ success_status (status_code r)) ∧
   (¬ success_status (status_code r) →
    ∃ msg, out = Raise (Cons3rtClientError msg) ∧
           occurs_in (str_int (status_code r)) msg ∧
           occurs_in (str_headers (headers r)) msg ∧
           ∀ text, decoded_text (content r) = Some text → occurs_in text msg) ∧
   (success_status (status_code r) → out = Ok (decoded_text (content r)))).
Proof.
  intros out. subst out. split.
  - intros Hbad. by rewrite parse_response_undecodable.
  - apply parse_response_checks_the_status.
Qed.

Lemma C9_witness_not_found :
  decodable (content not_found) ∧
  ∃ msg, (parse_response str_of_headers not_found).2 = Raise (Cons3rtClientError msg) ∧
         occurs_in "404" msg ∧ occurs_in "{'Content-Type': 'text/plain'}" msg ∧
         occurs_in "no such run" msg.
Proof.
  split; [exact eq_refl|].
  destruct (proj2 (C9_parse_response_decodes_then_checks_the_status
                     str_of_headers not_found) eq_refl)
    as (_ & Hbad & _).
  destruct Hbad as (msg & Hmsg & Hstatus & Hheaders & Hbody);
    [by intros [?|?]|].
  exists msg. split; [done|]. split; [done|]. split; [done|]. by apply Hbody.
Defined.

(** ** The API client does not look at the status *)

Section StatusBlind.
Variables net net' : string → nat → outcome.
Variable json_loads : string → option pyval.
Variable self : Session.
Hypothesis Hnet : ∀ url n, same_but_status (net url n) (net' url n).

Lemma http_get_loop_same_body fuel : ∀ a t url,
  same_body (http_get_loop net self fuel a t url) (http_get_loop net' self fuel a t url).
Proof.
  induction fuel as [|fuel IH]; intros a t url; [done|].
  cbn [http_get_loop]. destruct (max_retry_attempts self <=? a)%nat; [done|].
  rewrite !bind_emit. specialize (Hnet url a).
  destruct (net url a) as [r|c e], (net' url a) as [r'|c' e']; try done.
  - by destruct Hnet.
  - destruct Hnet as [<- <-].
    rewrite issubclass_RequestException, !bind_ret, !bind_emit.
    destruct (IH (a + 1) (t +:+ ("" +:+ attempt_failure "RequestException" a e) +:+ nl) url)
      as [Hevs Hres].
    split; simpl; [by rewrite Hevs | done].
Qed.

Lemma get_json_same target :
  get_json net json_loads self target = get_json net' json_loads self target.
Proof.
  unfold get_json, http_get, validate_target.
  cbn [is_None isinstance_str negb orb]. rewrite !bind_ret.
  destruct (http_get_loop_same_body (S (max_retry_attempts self)) 1 ""
              (base self +:+ target)) as [Hevs Hres].
  destruct (http_get_loop net self _ _ _ _) as [evs [r|e|]],
           (http_get_loop net' self _ _ _ _) as [evs' [r'|e'|]];
    simpl in Hevs, Hres; try done; subst; unfold bind at 1 3; cbn beta iota;
    [by rewrite Hres | done | done].
Qed.
End StatusBlind.

(** C4, as stated, fails: a 404 answer whose body is JSON is decoded
    and returned by [get_drs] as data. *)
Lemma C4_status_404_is_decoded_as_data :
  ¬ (∀ net json_loads self response v,
        (http_get net self
           (PyStr "/api/drs?search_type=SEARCH_AVAILABLE&in_project=true")).2
        = Ok response →
        (get_drs net json_loads self).2 = Ok v →
        success_status (status_code response)).
Proof.
  intros H.
  edestruct (H (sample_net 404 sample_routes) (sample_loads sample_table) sample_client)
    as [E|E]; [by vm_compute | by vm_compute | done | done].
Qed.

(** C4, amended: list-runs, list-run-hosts and get-host-detail never
    look at the status code; they decode the body of whatever response
    [http_get] returns.  Two remotes whose answers differ only in their
    status codes get the same events and the same result from each of
    the three operations. *)
Theorem C4_operations_ignore_the_status_code
  (net net' : string → nat → outcome) (json_loads : string → option pyval)
  (self : Session) :
  (∀ url n, same_but_status (net url n) (net' url n)) →
  get_drs net json_loads self = get_drs net' json_loads self ∧
  (∀ id, get_dr_hosts net json_loads self id = get_dr_hosts net' json_loads self id) ∧
  (∀ id host_id name,
      get_dr_host_details net json_loads self id host_id name
      = get_dr_host_details net' json_loads self id host_id name).
Proof.
  intros Hnet. unfold get_drs, get_dr_hosts, get_dr_host_details.
  split; [|split]; intros; by rewrite (get_json_same net net' json_loads self Hnet).
Qed.

Lemma C4_witness_200_and_404 :
  (∀ url n, same_but_status (sample_net 200 sample_routes url n)
                            (sample_net 404 sample_routes url n)) ∧
  get_drs (sample_net 200 sample_routes) (sample_loads sample_table) sample_client
  = get_drs (sample_net 404 sample_routes) (sample_loads sample_table) sample_client.
Proof.
  assert (H : ∀ url n, same_but_status (sample_net 200 sample_routes url n)
                                       (sample_net 404 sample_routes url n)).
  { intros url n. unfold sample_net. by destruct (alist_get url sample_routes). }
  split; [done|].
  apply (C4_operations_ignore_the_status_code _ _ (sample_loads sample_table)
           sample_client H).
Defined.

(** ** Populating the inventory *)

Section PopulateFacts.
Variable camel_dict_to_snake_dict : list string → dict → dict.

Lemma set_variables_calls hostname items : ∀ new_vars,
  Forall (λ c, call_hostname c = hostname)
         (set_variables hostname items new_vars).1 ∧
  ∃ vars, (set_variables hostname items new_vars).2 = Ok vars.
Proof.
  induction items as [|[hostvar hostval] items IH]; intros new_vars.
  - split; [constructor | by eexists].
  - cbn [set_variables]. rewrite bind_emit.
    destruct (IH (dict_set hostvar hostval new_vars)) as [Hcalls Hvars].
    split; [by constructor | done].
Qed.

Lemma _add_host_empty host group :
  role_empty host → _add_host camel_dict_to_snake_dict host group = ret tt.
Proof.
  intros (d & v & -> & Hget & Hv). unfold _add_host, py_getitem.
  rewrite Hget, bind_lift_ok, bind_ret. by rewrite Hv.
Qed.

Lemma _add_host_absent host group :
  role_absent host →
  _add_host camel_dict_to_snake_dict host group = raise (KeyError "systemRole").
Proof. intros (d & -> & Hget). unfold _add_host, py_getitem. by rewrite Hget. Qed.

Lemma _add_host_calls host group :
  Forall (λ c, py_truthy (call_hostname c) = true ∧
               py_getitem host "systemRole" = Ok (call_hostname c))
         (_add_host camel_dict_to_snake_dict host group).1.
Proof.
  unfold _add_host.
  destruct (py_getitem host "systemRole") as [v|e|] eqn:Hget; [|constructor..].
  rewrite bind_lift_ok.
  destruct host as [| | | | |d]; try discriminate Hget. rewrite bind_ret.
  destruct (py_truthy v) eqn:Hv; [|constructor]. cbn [negb].
  rewrite bind_emit. constructor; [done|].
  rewrite bind_events.
  destruct (set_variables_calls v (camel_dict_to_snake_dict ["Tags"] d) [])
    as [Hcalls [vars Hvars]].
  apply Forall_app. split.
  - eapply Forall_impl; [exact Hcalls|]. by intros c ->.
  - rewrite Hvars, !bind_emit. by repeat constructor.
Qed.

Lemma _add_hosts_calls hosts group :
  Forall (names_a_role hosts) (_add_hosts camel_dict_to_snake_dict hosts group).1.
Proof.
  induction hosts as [|host hosts IH]; [constructor|].
  cbn [_add_hosts]. rewrite bind_events. apply Forall_app. split.
  - eapply Forall_impl; [apply _add_host_calls|].
    intros c [Hc Hrole]. split; [done|]. exists host. split; [left|done].
  - destruct (_add_host _ _ _).2; [|constructor..].
    eapply Forall_impl; [exact IH|].
    intros c [Hc (h & Hh & Hrole)]. split; [done|]. exists h. split; [by right|done].
Qed.
End PopulateFacts.

(** C7, as stated, fails: a record without ['systemRole'] is not
    skipped; [host['systemRole']] raises [KeyError] and the hosts after
    it are not looked at. *)
Lemma C7_absent_role_is_not_skipped :
  ¬ (∀ camel host rest group,
        role_absent host ∨ role_empty host →
        _add_hosts camel (host :: rest) group = _add_hosts camel rest group).
Proof.
  intros H.
  assert (E := H (λ _ d, d) (PyDict [("id", PyInt 2)]) [host_detail 6 "db"] "cons3rt"
                 (or_introl (ex_intro _ _ (conj eq_refl eq_refl)))).
  vm_compute in E. discriminate E.
Qed.

(** C7, amended: a host whose ['systemRole'] is present and empty is
    skipped entirely, the loop going on with the next host; a record
    without the key makes [_add_hosts] raise [KeyError] at that host.
    In both cases no call is made for the host, and every call
    [_add_hosts] makes names a host by the non-empty ['systemRole'] of
    one of the given records. *)
Theorem C7_hosts_without_role_are_never_registered
  (camel : list string → dict → dict) (host : pyval) (rest hosts : list pyval)
  (group : string) :
  (role_empty host →
   _add_hosts camel (host :: rest) group = _add_hosts camel rest group) ∧
  (role_absent host →
   _add_hosts camel (host :: rest) group = raise (KeyError "systemRole")) ∧
  (role_absent host ∨ role_empty host → (_add_host camel host group).1 = []) ∧
  Forall (names_a_role hosts) (_add_hosts camel hosts group).1.
Proof.
  split; [|split; [|split]].
  - intros Hempty. cbn [_add_hosts]. by rewrite _add_host_empty, bind_ret.
  - intros Habsent. cbn [_add_hosts]. by rewrite _add_host_absent.
  - intros [Habsent|Hempty];
      [by rewrite _add_host_absent | by rewrite _add_host_empty].
  - apply _add_hosts_calls.
Qed.

(** ** The pool *)

Section PoolFacts.
Context {A : Type}.
Implicit Types tasks : list (io event A).
Implicit Types st : list event * list (@future A).

Lemma lookup_map {B C} (f : B → C) (l : list B) (i : nat) :
  map f l !! i = f <$> l !! i.
Proof. revert i. induction l as [|x l IH]; intros [|i]; simpl; auto. Qed.

Lemma complete_inv tasks st i : pool_inv tasks st → pool_inv tasks (complete tasks st i).
Proof.
  intros [Hlen Hst]. unfold complete.
  destruct (tasks !! i) as [t|] eqn:Hti; [|done].
  destruct (st.2 !! i) as [[r|]|] eqn:Hsi; [done| |done].
  split; simpl; [by rewrite length_insert|].
  intros j t' Htj. destruct (decide (i = j)) as [<-|Hne].
  - right. rewrite list_lookup_insert_eq by (by eapply lookup_lt_Some). congruence.
  - rewrite list_lookup_insert_ne by done. by apply Hst.
Qed.

Lemma complete_done tasks st i t :
  pool_inv tasks st → tasks !! i = Some t →
  (complete tasks st i).2 !! i = Some (Some t.2).
Proof.
  intros [Hlen Hst] Hti. unfold complete. rewrite Hti.
  destruct (Hst i t Hti) as [Hsi|Hsi]; rewrite Hsi; [|done].
  simpl. by rewrite list_lookup_insert_eq by (by eapply lookup_lt_Some).
Qed.

Lemma complete_keeps tasks st i j r :
  st.2 !! j = Some (Some r) → (complete tasks st i).2 !! j = Some (Some r).
Proof.
  intros Hsj. unfold complete.
  destruct (tasks !! i) as [t|]; [|done].
  destruct (st.2 !! i) as [[r'|]|] eqn:Hsi; [done| |done].
  simpl. destruct (decide (i = j)) as [->|Hne]; [congruence|].
  by rewrite list_lookup_insert_ne.
Qed.

Lemma foldl_complete_inv tasks l : ∀ st,
  pool_inv tasks st → pool_inv tasks (foldl (complete tasks) st l).
Proof. induction l as [|i l IH]; intros st Hst; [done|]. by apply IH, complete_inv. Qed.

Lemma foldl_complete_keeps tasks l j r : ∀ st,
  st.2 !! j = Some (Some r) → (foldl (complete tasks) st l).2 !! j = Some (Some r).
Proof. induction l as [|i l IH]; intros st Hst; [done|]. by apply IH, complete_keeps. Qed.

Lemma foldl_complete_done tasks l i t : ∀ st,
  pool_inv tasks st → i ∈ l → tasks !! i = Some t →
  (foldl (complete tasks) st l).2 !! i = Some (Some t.2).
Proof.
  induction l as [|j l IH]; intros st Hst Hi Hti; [by apply elem_of_nil in Hi|].
  simpl. apply elem_of_cons in Hi as [->|Hi].
  - by apply foldl_complete_keeps, complete_done.
  - apply IH; [by apply complete_inv | done | done].
Qed.

(** Whatever the completion order, leaving the [with] block finds in
    each future the ending of its own task. *)
Lemma run_pool_results order tasks :
  (run_pool order tasks).2 = map (λ t : io event A, Some t.2) tasks.
Proof.
  assert (Hinit : pool_inv tasks ([], replicate (length tasks) None)).
  { split; simpl; [by rewrite length_replicate|].
    intros i t Hti. left. apply lookup_replicate. split; [done|].
    by eapply lookup_lt_Some. }
  unfold run_pool. apply list_eq. intros i. rewrite lookup_map.
  destruct (tasks !! i) as [t|] eqn:Hti; simpl.
  - apply foldl_complete_done; [done| |done].
    apply elem_of_app. right. apply elem_of_seq.
    apply lookup_lt_Some in Hti. lia.
  - apply lookup_ge_None. apply lookup_ge_None in Hti.
    destruct (foldl_complete_inv tasks (order ++ seq 0 (length tasks)) _ Hinit)
      as [Hlen _]. lia.
Qed.
End PoolFacts.

(** ** sorted *)

Lemma insert_by_key_perm kx l : ∀ l',
  insert_by_key kx l = Ok l' → l' ≡ₚ kx :: l.
Proof.
  induction l as [|ky l IH]; intros l'; cbn [insert_by_key].
  - by intros [= <-].
  - destruct (py_lt ky.1 kx.1) as [[]|e|]; cbn [rbind]; [| |done..].
    + destruct (insert_by_key kx l) as [r|e|]; cbn [rbind]; [|done..].
      intros [= <-]. rewrite (IH r eq_refl). apply Permutation_swap.
    + by intros [= <-].
Qed.

Lemma sort_by_key_perm l : ∀ l', sort_by_key l = Ok l' → l' ≡ₚ l.
Proof.
  induction l as [|kx l IH]; intros l'; cbn [sort_by_key].
  - by intros [= <-].
  - destruct (sort_by_key l) as [r|e|]; cbn [rbind]; [|done..].
    intros H%insert_by_key_perm. by rewrite H, (IH r eq_refl).
Qed.

Lemma with_keys_ok key l : ∀ kl,
  with_keys key l = Ok kl →
  map snd kl = l ∧ Forall (λ kx, key kx.2 = Ok kx.1) kl.
Proof.
  induction l as [|x l IH]; intros kl; cbn [with_keys].
  - intros [= <-]. by split.
  - destruct (key x) as [k|e|] eqn:Hk; cbn [rbind]; [|done..].
    destruct (with_keys key l) as [r|e|]; cbn [rbind]; [|done..].
    intros [= <-]. destruct (IH r eq_refl) as [Hmap Hkeys].
    split; [simpl; by rewrite Hmap | by constructor].
Qed.

Lemma py_sorted_ok key l s :
  py_sorted key l = Ok s →
  ∃ kl kl', with_keys key l = Ok kl ∧ sort_by_key kl = Ok kl' ∧ s = map snd kl'.
Proof.
  unfold py_sorted.
  destruct (with_keys key l) as [kl|e|] eqn:Hkl; cbn [rbind]; [|done..].
  destruct (sort_by_key kl) as [kl'|e|] eqn:Hkl'; cbn [rbind]; [|done..].
  intros [= <-]. by exists kl, kl'.
Qed.

(** [sorted] returns a rearrangement of its argument. *)
Lemma py_sorted_perm key l s : py_sorted key l = Ok s → s ≡ₚ l.
Proof.
  intros (kl & kl' & Hkl & Hkl' & ->)%py_sorted_ok.
  apply with_keys_ok in Hkl as [<- _]. apply sort_by_key_perm in Hkl'.
  by rewrite Hkl'.
Qed.

Lemma insert_by_key_hd kx l l' a :
  insert_by_key kx l = Ok l' → HdRel key_le a l → key_le a kx → HdRel key_le a l'.
Proof.
  destruct l as [|ky l]; cbn [insert_by_key].
  - intros [= <-] _ ?. by constructor.
  - destruct (py_lt ky.1 kx.1) as [[]|e|]; cbn [rbind]; [| |done..].
    + destruct (insert_by_key kx l) as [r|e|]; cbn [rbind]; [|done..].
      intros [= <-] Hhd _. inversion Hhd; subst. by constructor.
    + intros [= <-] _ ?. by constructor.
Qed.

Lemma insert_by_key_sorted kx l : ∀ l',
  int_key kx → Forall int_key l → Sorted key_le l →
  insert_by_key kx l = Ok l' → Sorted key_le l'.
Proof.
  intros l' [i Hi]. revert l'.
  induction l as [|ky l IH]; intros l' Hint Hsorted; cbn [insert_by_key].
  - intros [= <-]. by repeat constructor.
  - apply Forall_cons in Hint as [[j Hj] Hint].
    apply Sorted_inv in Hsorted as [Hsorted Hhd].
    rewrite Hi, Hj. cbn [py_lt as_number rbind].
    destruct (Z.ltb_spec j i) as [Hlt|Hge].
    + destruct (insert_by_key kx l) as [r|e|] eqn:Hins; cbn [rbind]; [|done..].
      intros [= <-]. constructor; [by apply IH|].
      eapply insert_by_key_hd; [exact Hins | done |].
      exists j, i. repeat split; [done | done | lia].
    + intros [= <-]. constructor; [by constructor|].
      constructor. by exists i, j.
Qed.

Lemma sort_by_key_sorted l : ∀ l',
  Forall int_key l → sort_by_key l = Ok l' → Sorted key_le l'.
Proof.
  induction l as [|kx l IH]; intros l' Hint; cbn [sort_by_key].
  - intros [= <-]. constructor.
  - apply Forall_cons in Hint as [Hkx Hint].
    destruct (sort_by_key l) as [r|e|] eqn:Hsort; cbn [rbind]; [|done..].
    apply insert_by_key_sorted; [done | | by apply IH].
    apply sort_by_key_perm in Hsort. by rewrite Hsort.
Qed.

Lemma sorted_keys_ids kl : ∀ ids,
  Sorted key_le kl → Forall2 (λ kx i, kx.1 = PyInt i) kl ids → Sorted Z.le ids.
Proof.
  induction kl as [|kx kl IH]; intros ids Hsorted Hids.
  - apply Forall2_nil_inv_l in Hids as ->. constructor.
  - apply Forall2_cons_inv_l in Hids as (i & ids' & Hi & Hids & ->).
    apply Sorted_inv in Hsorted as [Hsorted Hhd].
    constructor; [by apply IH|].
    destruct Hids as [|ky j kl' ids'' Hj Hrest]; constructor.
    inversion Hhd as [|? ? (i' & j' & Hi' & Hj' & Hle)]; subst.
    congruence.
Qed.

(** When the ids of the sorted records are integers, they ascend. *)
Lemma py_sorted_ascending l s ids :
  py_sorted (λ x, py_getitem x "id") l = Ok s →
  Forall2 has_id s ids → Sorted Z.le ids.
Proof.
  intros (kl & kl' & Hkl & Hkl' & ->)%py_sorted_ok Hids.
  apply with_keys_ok in Hkl as [_ Hkeys].
  pose proof (sort_by_key_perm _ _ Hkl') as Hperm.
  rewrite <- Hperm in Hkeys.
  assert (Hpairs : Forall2 (λ kx i, kx.1 = PyInt i) kl' ids).
  { clear Hkl' Hperm. revert ids Hids.
    induction kl' as [|kx kl' IH]; intros ids Hids.
    - apply Forall2_nil_inv_l in Hids as ->. constructor.
    - apply Forall_cons in Hkeys as [Hkx Hkeys].
      apply Forall2_cons_inv_l in Hids as (i & ids' & Hi & Hids & ->).
      constructor; [|by apply IH]. unfold has_id in Hi. congruence. }
  apply (sorted_keys_ids kl'); [|done].
  apply (sort_by_key_sorted kl); [|done].
  rewrite <- Hperm. clear -Hpairs.
  induction Hpairs as [|kx i kl' ids Hi _ IH]; constructor; [by exists i | done].
Qed.

(** ** The fetch *)

Section FetchFacts.
Variable net : string → nat → outcome.
Variable json_loads : string → option pyval.
Variable client : Session.

(** The ending of [fan_out] does not depend on the completion orders. *)
Lemma fan_out_ending drs order1 order2 :
  (fan_out net json_loads client drs order1 order2).2
  = fan_out_result net json_loads client drs.
Proof.
  unfold fan_out, fan_out_result. cbv zeta.
  rewrite bind_result. cbn [snd].
  destruct (submit_runs drs).2 as [[]|e|]; cbn [rbind]; [|done..].
  rewrite bind_result. unfold lift at 1. cbn [snd].
  rewrite run_pool_results, map_map.
  destruct (gather_extend _) as [dr_hosts|e|]; cbn [rbind]; [|done..].
  rewrite bind_result. cbn [emit snd]. rewrite bind_result. cbn [snd].
  destruct (submit_hosts dr_hosts).2 as [[]|e|]; cbn [rbind]; [|done..].
  rewrite bind_result. unfold lift at 1. cbn [snd].
  rewrite run_pool_results, map_map.
  by destruct (gather_append _).
Qed.

Lemma _get_hosts_ending order1 order2 :
  (_get_hosts net json_loads client order1 order2).2
  = let* drs := (get_drs net json_loads client).2 in
    let* drs := py_iter drs in
    fan_out_result net json_loads client drs.
Proof.
  unfold _get_hosts. rewrite bind_result.
  destruct (get_drs net json_loads client).2 as [drs|e|]; cbn [rbind]; [|done..].
  rewrite bind_result. unfold lift at 1. cbn [snd].
  destruct (py_iter drs) as [l|e|]; cbn [rbind]; [|done..].
  apply fan_out_ending.
Qed.

Lemma _query_ending order1 order2 :
  (_query net json_loads client order1 order2).2
  = let* hosts := (_get_hosts net json_loads client order1 order2).2 in
    let* hosts := py_sorted (λ x, py_getitem x "id") hosts in
    Ok (PyDict [("cons3rt", PyList hosts)]).
Proof.
  unfold _query. rewrite bind_result.
  destruct (_get_hosts _ _ _ _ _).2 as [hosts|e|]; cbn [rbind]; [|done..].
  rewrite bind_result. unfold lift at 1. cbn [snd].
  by destruct (py_sorted _ hosts).
Qed.
End FetchFacts.

(** C5: the ending of [_query] is the same for all completion orders of
    the two pools.  When it returns, it returns [{'cons3rt': hosts}]
    where [hosts] is a rearrangement of the list [_get_hosts] collected
    and the integer ids of [hosts] ascend. *)
Theorem C5_query_sorts_by_id_whatever_the_completion_order
  (net : string → nat → outcome) (json_loads : string → option pyval)
  (client : Session) (order1 order2 order1' order2' : list nat) :
  (_query net json_loads client order1 order2).2
  = (_query net json_loads client order1' order2').2 ∧
  ∀ v, (_query net json_loads client order1 order2).2 = Ok v →
       ∃ collected hosts,
         (_get_hosts net json_loads client order1 order2).2 = Ok collected ∧
         v = PyDict [("cons3rt", PyList hosts)] ∧
         hosts ≡ₚ collected ∧
         ∀ ids, Forall2 has_id hosts ids → Sorted Z.le ids.
Proof.
  split.
  - by rewrite !_query_ending, !_get_hosts_ending.
  - intros v. rewrite _query_ending.
    destruct (_get_hosts _ _ _ _ _).2 as [collected|e|]; cbn [rbind]; [|done..].
    destruct (py_sorted _ collected) as [hosts|e|] eqn:Hsorted; cbn [rbind]; [|done..].
    intros [= <-]. exists collected, hosts.
    split; [done|]. split; [done|]. split; [by eapply py_sorted_perm|].
    intros ids. by eapply py_sorted_ascending.
Qed.

(** The scenario of two reserved runs with two hosts and one host and
    a run that is not reserved: three records, tagged and sorted, under
    two different completion orders. *)
Example query_sample :
  (_query (sample_net 200 sample_routes) (sample_loads sample_table) sample_client
          [1; 0] [2; 0; 1]).2
  = Ok (PyDict
          [("cons3rt",
            PyList
              [PyDict [("id", PyInt 3); ("systemRole", PyStr "db");
                       ("drId", PyInt 11); ("drName", PyStr "alpha")];
               PyDict [("id", PyInt 4); ("systemRole", PyStr "cache");
                       ("drId", PyInt 12); ("drName", PyStr "beta")];
               PyDict [("id", PyInt 5); ("systemRole", PyStr "web");
                       ("drId", PyInt 11); ("drName", PyStr "alpha")]])]).
Proof. by vm_compute. Qed.

(** ** Runs that are not reserved *)

Lemma py_eq_str (v : pyval) (s : string) : py_eq v (PyStr s) = true → v = PyStr s.
Proof.
  destruct v as [|b|z|t|l|d]; simpl; try done.
  by intros ->%String.eqb_eq.
Qed.

Lemma submit_runs_skip (before after : list pyval) (dr : pyval) :
  not_reserved dr → submit_runs (before ++ dr :: after) = submit_runs (before ++ after).
Proof.
  intros (status & Hstatus & Hne). induction before as [|x before IH]; simpl.
  - rewrite Hstatus, bind_lift_ok.
    destruct (py_eq status (PyStr "RESERVED")) eqn:E.
    + by apply py_eq_str in E.
    + by rewrite bind_ret.
  - by rewrite IH.
Qed.

Lemma submit_runs_reserved (drs : list pyval) (id : pyval) :
  id ∈ (submit_runs drs).1 → reserved_id drs id.
Proof.
  induction drs as [|dr drs IH]; cbn [submit_runs].
  - by intros ?%elem_of_nil.
  - assert (Hrest : id ∈ (submit_runs drs).1 → reserved_id (dr :: drs) id).
    { intros (x & Hx & Hr)%IH. exists x. split; [by right|done]. }
    destruct (py_getitem dr "fapStatus") as [status|e|] eqn:Hs;
      [|by intros ?%elem_of_nil..].
    rewrite bind_lift_ok.
    destruct (py_eq status (PyStr "RESERVED")) eqn:E.
    + apply py_eq_str in E as ->.
      destruct (py_getitem dr "id") as [i|e|] eqn:Hi; [|by intros ?%elem_of_nil..].
      rewrite bind_lift_ok, bind_emit. cbn [fst].
      intros [->|Hin]%elem_of_cons; [|by apply Hrest].
      exists dr. split; [left|done].
    + by rewrite bind_ret.
Qed.

(** C10: a run whose ['fapStatus'] is not ["RESERVED"] contributes
    nothing.  With the run in the list or taken out of it, the fetch
    makes the same requests and collects the same hosts, and every id
    [get_dr_hosts] is submitted for is the ['id'] of one of the other
    runs, a reserved one. *)
Theorem C10_runs_that_are_not_reserved_contribute_nothing
  (net : string → nat → outcome) (json_loads : string → option pyval)
  (client : Session) (before after : list pyval) (dr : pyval)
  (order1 order2 : list nat) :
  not_reserved dr →
  fan_out net json_loads client (before ++ dr :: after) order1 order2
  = fan_out net json_loads client (before ++ after) order1 order2 ∧
  ∀ id, id ∈ (submit_runs (before ++ dr :: after)).1 →
        reserved_id (before ++ after) id.
Proof.
  intros Hdr. split.
  - unfold fan_out. by rewrite (submit_runs_skip before after dr Hdr).
  - intros id. rewrite (submit_runs_skip before after dr Hdr).
    apply submit_runs_reserved.
Qed.

Lemma C10_witness_run_in_error :
  not_reserved (run 13 "gamma" "ERROR") ∧
  fan_out (sample_net 200 sample_routes) (sample_loads sample_table) sample_client
          ([run 11 "alpha" "RESERVED"] ++ run 13 "gamma" "ERROR"
           :: [run 12 "beta" "RESERVED"]) [] []
  = fan_out (sample_net 200 sample_routes) (sample_loads sample_table) sample_client
            ([run 11 "alpha" "RESERVED"] ++ [run 12 "beta" "RESERVED"]) [] [].
Proof.
  assert (H : not_reserved (run 13 "gamma" "ERROR")).
  { exists (PyStr "ERROR"). split; [reflexivity | discriminate]. }
  split; [exact H|].
  apply (C10_runs_that_are_not_reserved_contribute_nothing
           (sample_net 200 sample_routes) (sample_loads sample_table) sample_client
           [run 11 "alpha" "RESERVED"] [run 12 "beta" "RESERVED"]
           (run 13 "gamma" "ERROR") [] [] H).
Defined.

(** ** Tagging with the parent run *)

Lemma bind_lift_result {E A B} (r : result A) (k : A → io E B) :
  (bind (lift r) k).2 = let* a := r in (k a).2.
Proof. rewrite bind_result. by destruct r. Qed.

Lemma alist_get_dict_set_eq (k : string) (v : pyval) (d : dict) :
  alist_get k (dict_set k v d) = Some v.
Proof.
  induction d as [|[k' v'] d IH]; simpl.
  - by rewrite String.eqb_refl.
  - destruct (String.eqb k k') eqn:E; simpl; [by rewrite String.eqb_refl|].
    by rewrite E.
Qed.

Lemma alist_get_dict_set_ne (k k' : string) (v : pyval) (d : dict) :
  k ≠ k' → alist_get k' (dict_set k v d) = alist_get k' d.
Proof.
  intros Hne. assert (Hkk : String.eqb k' k = false) by (by apply String.eqb_neq).
  induction d as [|[k0 v0] d IH]; simpl.
  - by rewrite Hkk.
  - destruct (String.eqb_spec k k0) as [<-|Hk0]; simpl.
    + by rewrite Hkk.
    + destruct (String.eqb k' k0); [done|apply IH].
Qed.

Lemma tagged_stamp (id name : pyval) (d : dict) : tagged id name (PyDict (stamp id name d)).
Proof.
  unfold tagged, stamp, dict_update, py_getitem. simpl. split.
  - by rewrite alist_get_dict_set_ne, alist_get_dict_set_eq.
  - by rewrite alist_get_dict_set_eq.
Qed.

(** The two updates leave every other field as it was. *)
Lemma stamp_keeps (id name : pyval) (d : dict) (k : string) :
  k ≠ "drId" → k ≠ "drName" → alist_get k (stamp id name d) = alist_get k d.
Proof.
  intros H1 H2. unfold stamp, dict_update. simpl.
  by rewrite !alist_get_dict_set_ne.
Qed.

Lemma stamped_tagged (id name original record : pyval) :
  stamped id name original record → tagged id name record.
Proof. intros (d & _ & ->). apply tagged_stamp. Qed.

Lemma stamp_hosts_spec (deployment_run id : pyval) (ds : list pyval) : ∀ ds',
  stamp_hosts deployment_run id ds = Ok ds' →
  Forall2 (λ d d', ∃ name, py_getitem deployment_run "name" = Ok name ∧
                           stamped id name d d') ds ds'.
Proof.
  induction ds as [|d ds IH]; intros ds'; cbn [stamp_hosts].
  - intros [= <-]. constructor.
  - destruct d as [| | | | |dd]; try done. cbn [py_update rbind].
    destruct (py_getitem deployment_run "name") as [name|e|] eqn:Hname;
      cbn [rbind]; try done.
    destruct (stamp_hosts deployment_run id ds) as [rest|e|] eqn:Hrest;
      cbn [rbind]; try done.
    intros [= <-]. constructor; [|by apply IH].
    exists name. split; [done|]. by exists dd.
Qed.

(** A sequence of [str] that [stamp_hosts] gets through is empty. *)
Lemma stamp_hosts_of_str (deployment_run id : pyval) (texts : list string) (ds' : list pyval) :
  stamp_hosts deployment_run id (map PyStr texts) = Ok ds' → texts = [].
Proof. by destruct texts. Qed.

Section TaggingFacts.
Variable net : string → nat → outcome.
Variable json_loads : string → option pyval.
Variable client : Session.

Lemma get_dr_hosts_ending (id : pyval) :
  (get_dr_hosts net json_loads client id).2
  = let* deployment_run :=
      (get_json net json_loads client ("/api/drs/" +:+ py_str id)).2 in
    let* hosts := py_getitem deployment_run "deploymentRunHosts" in
    let* ds := py_iter hosts in
    let* ds := stamp_hosts deployment_run id ds in
    Ok (match hosts with
        | PyList _ => PyList ds
        | _ => hosts
        end).
Proof.
  unfold get_dr_hosts. rewrite bind_result.
  destruct (get_json _ _ _ _).2 as [deployment_run|e|]; cbn [rbind]; [|done..].
  rewrite bind_lift_result.
  destruct (py_getitem deployment_run _) as [hosts|e|]; cbn [rbind]; [|done..].
  rewrite bind_lift_result.
  destruct (py_iter hosts) as [ds|e|]; cbn [rbind]; [|done..].
  rewrite bind_lift_result.
  by destruct (stamp_hosts deployment_run id ds).
Qed.

Lemma get_dr_hosts_stamps (id v : pyval) :
  (get_dr_hosts net json_loads client id).2 = Ok v →
  ∃ deployment_run hosts originals stubs,
    (get_json net json_loads client ("/api/drs/" +:+ py_str id)).2 = Ok deployment_run ∧
    py_getitem deployment_run "deploymentRunHosts" = Ok hosts ∧
    py_iter hosts = Ok originals ∧
    py_iter v = Ok stubs ∧
    Forall2 (λ d d', ∃ name, py_getitem deployment_run "name" = Ok name ∧
                             stamped id name d d') originals stubs.
Proof.
  rewrite get_dr_hosts_ending.
  destruct (get_json _ _ _ _).2 as [deployment_run|e|]; cbn [rbind]; [|done..].
  destruct (py_getitem deployment_run _) as [hosts|e|] eqn:Hhosts; cbn [rbind]; [|done..].
  destruct (py_iter hosts) as [ds|e|] eqn:Hiter; cbn [rbind]; [|done..].
  destruct (stamp_hosts deployment_run id ds) as [ds'|e|] eqn:Hstamp;
    cbn [rbind]; [|done..].
  intros [= <-]. exists deployment_run, hosts, ds.
  destruct hosts as [| | |s|l|d]; try done.
  - injection Hiter as <-. apply stamp_hosts_of_str in Hstamp.
    exists []. cbn [py_iter]. rewrite Hstamp. repeat (split; [done|]). constructor.
  - injection Hiter as <-. exists ds'.
    repeat (split; [done|]). by apply stamp_hosts_spec.
  - injection Hiter as <-. rewrite <- (map_map fst PyStr) in Hstamp.
    apply stamp_hosts_of_str in Hstamp. exists [].
    cbn [py_iter]. rewrite <- (map_map fst PyStr), Hstamp.
    repeat (split; [done|]). constructor.
Qed.

Lemma get_dr_host_details_stamps (id hid name v : pyval) :
  (get_dr_host_details net json_loads client id hid name).2 = Ok v →
  ∃ decoded,
    (get_json net json_loads client
       ("/api/drs/" +:+ py_str id +:+ "/host/" +:+ py_str hid)).2 = Ok decoded ∧
    stamped id name decoded v.
Proof.
  unfold get_dr_host_details. rewrite bind_result.
  destruct (get_json _ _ _ _).2 as [decoded|e|]; [|done..].
  destruct decoded as [| | | | |d]; try done.
  cbn [py_update]. rewrite !bind_lift_ok. cbn [py_update]. rewrite bind_lift_ok.
  intros [= <-]. eexists. split; [done|]. by exists d.
Qed.

Lemma hosts_of_run_intro (id v : pyval) :
  (get_dr_hosts net json_loads client id).2 = Ok v →
  ∃ stubs, py_iter v = Ok stubs ∧ hosts_of_run net json_loads client id stubs.
Proof.
  intros Hv.
  destruct (get_dr_hosts_stamps id v Hv)
    as (deployment_run & hosts & originals & stubs & Hrun & _ & _ & Hstubs & Hall).
  exists stubs. split; [done|]. exists v. split; [done|]. split; [done|].
  clear Hstubs. induction Hall as [|d d' ds ds' (name & Hname & Hd) _ IH]; constructor.
  - exists name. split; [by exists deployment_run|]. by eapply stamped_tagged.
  - apply IH.
Qed.

Lemma gather_extend_spec (ids : list pyval) : ∀ dr_hosts,
  gather_extend (map (λ id, Some (get_dr_hosts net json_loads client id).2) ids)
  = Ok dr_hosts →
  ∃ lists, Forall2 (hosts_of_run net json_loads client) ids lists ∧
           dr_hosts = concat lists.
Proof.
  induction ids as [|id ids IH]; intros dr_hosts; cbn [map gather_extend future_result].
  - intros [= <-]. exists []. split; [constructor|done].
  - destruct (get_dr_hosts net json_loads client id).2 as [v|e|] eqn:Hv;
      cbn [rbind]; try done.
    destruct (hosts_of_run_intro id v Hv) as (stubs & Hiter & Hstubs).
    rewrite Hiter. cbn [rbind].
    destruct (gather_extend _) as [more|e|] eqn:Hmore; cbn [rbind]; try done.
    intros [= <-]. destruct (IH more eq_refl) as (lists & Hlists & ->).
    exists (stubs :: lists). split; [by constructor|done].
Qed.

Lemma submit_hosts_spec (dr_hosts : list pyval) :
  (submit_hosts dr_hosts).2 = Ok tt →
  Forall2 (λ stub a, py_getitem stub "drId" = Ok a.1.1 ∧
                     py_getitem stub "id" = Ok a.1.2 ∧
                     py_getitem stub "drName" = Ok a.2)
          dr_hosts (submit_hosts dr_hosts).1.
Proof.
  induction dr_hosts as [|h hs IH]; cbn [submit_hosts]; [constructor|].
  destruct (py_getitem h "drId") as [drId|e|] eqn:H1; [|by unfold bind..].
  rewrite bind_lift_ok.
  destruct (py_getitem h "id") as [hid|e|] eqn:H2; [|by unfold bind..].
  rewrite bind_lift_ok.
  destruct (py_getitem h "drName") as [drName|e|] eqn:H3; [|by unfold bind..].
  rewrite bind_lift_ok, bind_emit. cbn [fst snd].
  intros Hrest. constructor; [done|by apply IH].
Qed.

Lemma gather_append_spec (triples : list (pyval * pyval * pyval)) : ∀ all,
  gather_append (map (λ a, Some (host_task net json_loads client a).2) triples) = Ok all →
  Forall2 (λ a record, (host_task net json_loads client a).2 = Ok record) triples all.
Proof.
  induction triples as [|a triples IH]; intros all; cbn [map gather_append future_result].
  - intros [= <-]. constructor.
  - destruct (host_task net json_loads client a).2 as [v|e|] eqn:Hv;
      cbn [rbind]; try done.
    destruct (gather_append _) as [more|e|] eqn:Hmore; cbn [rbind]; try done.
    intros [= <-]. constructor; [done|by apply IH].
Qed.

Lemma fan_out_tags (drs : list pyval) (order1 order2 : list nat) (all : list pyval) :
  (fan_out net json_loads client drs order1 order2).2 = Ok all →
  Forall (reserved_id drs) (submit_runs drs).1 ∧
  ∃ lists,
    Forall2 (hosts_of_run net json_loads client) (submit_runs drs).1 lists ∧
    Forall2 (detail_of net json_loads client) (concat lists) all.
Proof.
  rewrite fan_out_ending. unfold fan_out_result. cbv zeta.
  destruct (submit_runs drs).2 as [[]|e|]; cbn [rbind]; [|done..].
  destruct (gather_extend _) as [dr_hosts|e|] eqn:Hextend; cbn [rbind]; [|done..].
  destruct (submit_hosts dr_hosts).2 as [[]|e|] eqn:Hsubmit; cbn [rbind]; [|done..].
  intros Happend.
  split; [apply Forall_forall; intros id; apply submit_runs_reserved|].
  destruct (gather_extend_spec _ _ Hextend) as (lists & Hlists & ->).
  exists lists. split; [done|].
  eapply Forall2_trans;
    [|apply (submit_hosts_spec _ Hsubmit)|apply (gather_append_spec _ _ Happend)].
  intros stub [[drId hid] drName] record (HdrId & Hid & HdrName) Hrecord.
  simpl in HdrId, Hid, HdrName. unfold host_task in Hrecord. simpl in Hrecord.
  exists drId, drName, hid. split; [done|]. split; [done|]. split; [done|].
  destruct (get_dr_host_details_stamps _ _ _ _ Hrecord) as (decoded & _ & Hstamped).
  by eapply stamped_tagged.
Qed.
End TaggingFacts.

(** C6: every record carries its parent run.  [get_dr_hosts] returns
    the elements of the run's ['deploymentRunHosts'], each after the
    two updates with the id asked for and the ['name'] of the run;
    [get_dr_host_details] returns the decoded object after the two
    updates with the pair it was given.  In the fetch, each submitted id
    is that of a reserved run, the hosts of each run carry the id and
    the name of that run, and the detail record of every host carries
    the pair its host carries. *)
Theorem C6_every_record_carries_its_parent_run
  (net : string → nat → outcome) (json_loads : string → option pyval)
  (client : Session) :
  (∀ id v,
      (get_dr_hosts net json_loads client id).2 = Ok v →
      ∃ deployment_run hosts originals stubs,
        (get_json net json_loads client ("/api/drs/" +:+ py_str id)).2
        = Ok deployment_run ∧
        py_getitem deployment_run "deploymentRunHosts" = Ok hosts ∧
        py_iter hosts = Ok originals ∧
        py_iter v = Ok stubs ∧
        Forall2 (λ d d', ∃ name, py_getitem deployment_run "name" = Ok name ∧
                                 stamped id name d d' ∧ tagged id name d')
                originals stubs) ∧
  (∀ id hid name v,
      (get_dr_host_details net json_loads client id hid name).2 = Ok v →
      ∃ decoded,
        (get_json net json_loads client
           ("/api/drs/" +:+ py_str id +:+ "/host/" +:+ py_str hid)).2 = Ok decoded ∧
        stamped id name decoded v ∧ tagged id name v) ∧
  (∀ drs order1 order2 all,
      (fan_out net json_loads client drs order1 order2).2 = Ok all →
      Forall (reserved_id drs) (submit_runs drs).1 ∧
      ∃ lists,
        Forall2 (hosts_of_run net json_loads client) (submit_runs drs).1 lists ∧
        Forall2 (detail_of net json_loads client) (concat lists) all).
Proof.
  split; [|split].
  - intros id v Hv.
    destruct (get_dr_hosts_stamps net json_loads client id v Hv)
      as (deployment_run & hosts & originals & stubs & Hrun & Hhosts & Ho & Hs & Hall).
    exists deployment_run, hosts, originals, stubs. repeat (split; [done|]).
    eapply Forall2_impl; [exact Hall|].
    intros d d' (name & Hname & Hd). exists name.
    split; [done|]. split; [done|]. by eapply stamped_tagged.
  - intros id hid name v Hv.
    destruct (get_dr_host_details_stamps net json_loads client id hid name v Hv)
      as (decoded & Hdecoded & Hstamped).
    exists decoded. split; [done|]. split; [done|]. by eapply stamped_tagged.
  - intros drs order1 order2 all. apply fan_out_tags.
Qed.

Lemma C6_witness_sample_fetch :
  ∃ all,
    (fan_out (sample_net 200 sample_routes) (sample_loads sample_table) sample_client
             [run 11 "alpha" "RESERVED"; run 13 "gamma" "ERROR"; run 12 "beta" "RESERVED"]
             [] []).2 = Ok all ∧
    ∃ lists,
      Forall2 (hosts_of_run (sample_net 200 sample_routes) (sample_loads sample_table)
                 sample_client)
              [PyInt 11; PyInt 12] lists ∧
      Forall2 (detail_of (sample_net 200 sample_routes) (sample_loads sample_table)
                 sample_client)
              (concat lists) all.
Proof.
  eexists. split; [vm_compute; reflexivity|].
  destruct (C6_every_record_carries_its_parent_run
              (sample_net 200 sample_routes) (sample_loads sample_table) sample_client)
    as (_ & _ & Hfetch).
  refine (proj2 (Hfetch [run 11 "alpha" "RESERVED"; run 13 "gamma" "ERROR";
                         run 12 "beta" "RESERVED"] [] [] _ _)).
  vm_compute; reflexivity.
Defined.

(** ** The sample fetch under two completion orders *)

Lemma C5_witness_sample_query :
  ∃ v,
    (_query (sample_net 200 sample_routes) (sample_loads sample_table) sample_client
            [1; 0] [2; 0; 1]).2 = Ok v ∧
    (_query (sample_net 200 sample_routes) (sample_loads sample_table) sample_client
            [] [1; 1; 7]).2 = Ok v ∧
    ∃ collected hosts,
      (_get_hosts (sample_net 200 sample_routes) (sample_loads sample_table) sample_client
                  [1; 0] [2; 0; 1]).2 = Ok collected ∧
      v = PyDict [("cons3rt", PyList hosts)] ∧
      hosts ≡ₚ collected ∧
      ∀ ids, Forall2 has_id hosts ids → Sorted Z.le ids.
Proof.
  destruct (C5_query_sorts_by_id_whatever_the_completion_order
              (sample_net 200 sample_routes) (sample_loads sample_table) sample_client
              [1; 0] [2; 0; 1] [] [1; 1; 7]) as [Hsame Hsorted].
  eexists. split; [vm_compute; reflexivity|].
  split; [rewrite <- Hsame; vm_compute; reflexivity|].
  apply Hsorted. vm_compute; reflexivity.
Defined.

(** * Further properties *)

(** ** The retry loop *)

Section RetryFacts.
Variable net : string → nat → outcome.
Variable self : Session.
Variable url : string.

Lemma get_in_retry_events a n x :
  EvGet x ∈ retry_events net self url a n → x = url.
Proof.
  revert a. induction n as [|n IH]; intros a; cbn [retry_events].
  - by intros ?%elem_of_nil.
  - rewrite !elem_of_cons. intros [[= ->]|[?|[?|?]]]; try done. by eapply IH.
Qed.

Lemma print_in_retry_events a n text :
  EvPrint text ∈ retry_events net self url a n →
  (∀ j, a ≤ j < a + n → fails (net url j)) →
  ∃ j c e, a ≤ j < a + n ∧ net url j = Fails c e ∧
           text = attempt_failure "RequestException" j e.
Proof.
  revert a. induction n as [|n IH]; intros a; cbn [retry_events].
  - by intros ?%elem_of_nil.
  - rewrite !elem_of_cons. intros [?|[[= ->]|[?|Hin]]] Hfail; try done.
    + specialize (Hfail a). destruct (net url a) as [r|c e] eqn:Ha.
      * destruct Hfail. lia.
      * exists a, c, e. split; [lia|]. by split.
    + destruct (IH (S a) Hin) as (j & c & e & Hj & Hnet & ->).
      * intros j Hj. apply Hfail. lia.
      * exists j, c, e. split; [lia|]. by split.
Qed.

Lemma slept_app evs evs' : slept (evs ++ evs') = slept evs ++ slept evs'.
Proof. unfold slept. apply omap_app. Qed.
End RetryFacts.

(** X1: fewer failures than the budget allows, then an answer.  The
    answer is returned by the GET that follows the [N] failed ones, after
    one sleep of [retry_time_sec] per failure, and every GET went to
    [base + target]. *)
Theorem X1_http_get_returns_the_first_answer
  (net : string → nat → outcome) (self : Session) (target : string)
  (N : nat) (r : response) :
  S N < max_retry_attempts self →
  (∀ j, 1 ≤ j ≤ N → fails (net (base self +:+ target) j)) →
  net (base self +:+ target) (S N) = Answers r →
  let out := http_get net self (PyStr target) in
  out.2 = Ok r ∧
  count_gets out.1 = S N ∧
  slept out.1 = replicate N (retry_time_sec self) ∧
  ∀ url, EvGet url ∈ out.1 → url = base self +:+ target.
Proof.
  intros Hm Hfail Hr out. subst out.
  rewrite (http_get_retry_success net self target N r Hm Hfail Hr). cbn [fst snd].
  split; [done|]. split; [|split].
  - rewrite count_gets_app, count_gets_retry_events. unfold count_gets. simpl. lia.
  - rewrite slept_app, slept_retry_events. unfold slept. simpl.
    by rewrite app_nil_r.
  - intros url [Hin|Hin]%elem_of_app.
    + by eapply get_in_retry_events.
    + apply list_elem_of_singleton in Hin. by injection Hin.
Qed.

Lemma X1_witness_three_timeouts :
  (http_get (answers_after 3 ok_response) sample_client (PyStr "/api/drs")).2
  = Ok ok_response ∧
  count_gets (http_get (answers_after 3 ok_response) sample_client (PyStr "/api/drs")).1
  = 4.
Proof.
  assert (H := X1_http_get_returns_the_first_answer
                 (answers_after 3 ok_response) sample_client "/api/drs" 3 ok_response).
  cbv zeta in H. destruct H as (Hout & Hgets & _).
  - simpl. lia.
  - intros j Hj. unfold answers_after.
    destruct (Nat.leb_spec j 3) as [_|Hlt]; [exact I|lia].
  - reflexivity.
  - split; [exact Hout|exact Hgets].
Defined.

(** X2: whatever the session's budget and whatever the remote does,
    [http_get] on a [str] target ends, makes at most
    [max_retry_attempts - 1] GETs and sleeps [retry_time_sec] each time
    it sleeps.  With a budget of 1 or 0 it makes no GET at all: it
    raises [Cons3rtClientError] with an empty tally at once. *)
Theorem X2_http_get_never_exceeds_its_budget
  (net : string → nat → outcome) (self : Session) (target : string) :
  let out := http_get net self (PyStr target) in
  out.2 ≠ Hang ∧
  count_gets out.1 ≤ max_retry_attempts self - 1 ∧
  (∀ secs, secs ∈ slept out.1 → secs = retry_time_sec self) ∧
  (max_retry_attempts self ≤ 1 → out = ([], Raise (exhausted self ""))).
Proof.
  intros out. subst out.
  destruct (decide (max_retry_attempts self = 0)) as [Hzero|Hpos].
  - assert (Hout : http_get net self (PyStr target) = ([], Raise (exhausted self ""))).
    { unfold http_get, validate_target. cbn [is_None isinstance_str negb orb].
      rewrite bind_ret. cbn [http_get_loop]. unfold exhausted. by rewrite Hzero. }
    rewrite Hout. cbn [fst snd]. split; [done|]. split; [unfold count_gets; simpl; lia|].
    split; [by intros secs ?%elem_of_nil|done].
  - rewrite http_get_closed by lia.
    destruct (first_answer _ _ _ _) as [[k r]|] eqn:Hfa; cbn [fst snd].
    + apply first_answer_spec in Hfa as (Hk & _ & _).
      split; [done|]. split; [|split].
      * rewrite count_gets_app, count_gets_retry_events. unfold count_gets. simpl. lia.
      * intros secs. rewrite slept_app, slept_retry_events. unfold slept. simpl.
        rewrite app_nil_r. by intros [-> _]%elem_of_replicate.
      * lia.
    + split; [done|]. split; [|split].
      * rewrite count_gets_retry_events. lia.
      * intros secs. rewrite slept_retry_events. by intros [-> _]%elem_of_replicate.
      * intros Hone. by replace (max_retry_attempts self - 1) with 0 by lia.
Qed.

(** X3: whatever the class of the exception a GET raises, [SSLError]
    included, the message printed for the attempt is the one of the
    [except RequestException] clause: the [except SSLError] clause that
    follows it is never entered. *)
Theorem X3_failures_are_reported_as_RequestException
  (net : string → nat → outcome) (self : Session) (target text : string) :
  EvPrint text ∈ (http_get net self (PyStr target)).1 →
  ∃ attempt_num c e,
    net (base self +:+ target) attempt_num = Fails c e ∧
    text = "RequestException on GET attempt #" +:+ str_nat attempt_num +:+ nl +:+ e.
Proof.
  destruct (decide (max_retry_attempts self = 0)) as [Hzero|Hpos].
  - unfold http_get, validate_target. cbn [is_None isinstance_str negb orb].
    rewrite bind_ret. cbn [http_get_loop]. rewrite Hzero.
    by intros ?%elem_of_nil.
  - rewrite http_get_closed by lia.
    destruct (first_answer _ _ _ _) as [[k r]|] eqn:Hfa; cbn [fst].
    + apply first_answer_spec in Hfa as (Hk & _ & Hfail).
      intros [Hin|Hin]%elem_of_app.
      * destruct (print_in_retry_events _ _ _ _ _ _ Hin) as (j & c & e & _ & Hnet & ->).
        { intros j Hj. apply Hfail. lia. }
        exists j, c, e. split; [done|]. reflexivity.
      * by apply list_elem_of_singleton in Hin.
    + intros Hin.
      destruct (print_in_retry_events _ _ _ _ _ _ Hin) as (j & c & e & _ & Hnet & ->).
      { by apply first_answer_none. }
      exists j, c, e. split; [done|]. reflexivity.
Qed.

Lemma X3_witness_certificate_failure :
  EvPrint ("RequestException on GET attempt #1" +:+ nl +:+ "certificate verify failed")
  ∈ (http_get (ssl_then_answers ok_response) sample_client (PyStr "/api/drs")).1 ∧
  ∃ attempt_num c e,
    ssl_then_answers ok_response (base sample_client +:+ "/api/drs") attempt_num
    = Fails c e ∧
    "RequestException on GET attempt #1" +:+ nl +:+ "certificate verify failed"
    = "RequestException on GET attempt #" +:+ str_nat attempt_num +:+ nl +:+ e.
Proof.
  assert (Hin : EvPrint ("RequestException on GET attempt #1" +:+ nl
                         +:+ "certificate verify failed")
                ∈ (http_get (ssl_then_answers ok_response) sample_client
                            (PyStr "/api/drs")).1).
  { vm_compute. apply list_elem_of_further, list_elem_of_here. }
  split; [exact Hin|].
  exact (X3_failures_are_reported_as_RequestException
           (ssl_then_answers ok_response) sample_client "/api/drs" _ Hin).
Defined.

(** ** parse_response: what it prints *)

(** X4: on a response whose body, if any, is UTF-8, [parse_response]
    prints two lines when the status is 200 or 202, the name of the
    status and the whole decoded body ([None] when there is none), and
    prints nothing when it raises. *)
Theorem X4_parse_response_prints_only_on_success
  (str_headers : list (string * string) → string) (r : response) :
  decodable (content r) →
  (status_code r = 200%Z →
   (parse_response str_headers r).1
   = [EvPrint "Received an OK HTTP Response Code";
      EvPrint ("Parsed decoded content: " +:+ str_opt (decoded_text (content r)))]) ∧
  (status_code r = 202%Z →
   (parse_response str_headers r).1
   = [EvPrint "Received an ACCEPTED HTTP Response Code (202)";
      EvPrint ("Parsed decoded content: " +:+ str_opt (decoded_text (content r)))]) ∧
  (¬ success_status (status_code r) → (parse_response str_headers r).1 = []).
Proof.
  intros Hdec. unfold parse_response.
  rewrite (parse_response_decoded r Hdec), bind_ret. unfold success_status.
  split; [|split].
  - by intros ->.
  - by intros ->.
  - intros Hbad.
    destruct (Z.eqb_spec (status_code r) 200) as [?|_]; [tauto|].
    destruct (Z.eqb_spec (status_code r) 202) as [?|_]; [tauto|]. done.
Qed.

Lemma X4_witness_empty_list :
  decodable (content ok_response) ∧
  (parse_response str_of_headers ok_response).1
  = [EvPrint "Received an OK HTTP Response Code";
     EvPrint "Parsed decoded content: []"].
Proof.
  split; [exact eq_refl|].
  exact (proj1 (X4_parse_response_prints_only_on_success str_of_headers ok_response
                  eq_refl) eq_refl).
Defined.

(** X5: a [bytes] body that is not UTF-8 makes [parse_response] raise
    [UnicodeDecodeError] before the status code is looked at, so even
    for a 200, and nothing is printed. *)
Theorem X5_parse_response_decodes_before_the_status_check
  (str_headers : list (string * string) → string) (r : response) (b : string) :
  content r = Bytes b → utf8_valid b = false →
  parse_response str_headers r = ([], Raise UnicodeDecodeError).
Proof.
  intros Hc Hb. unfold parse_response. rewrite Hc. cbn [body_truthy].
  destruct (String.eqb_spec b "") as [->|_]; [done|]. cbn [negb].
  unfold decode_utf8. by rewrite Hb.
Qed.

Lemma X5_witness_garbled_ok :
  status_code garbled = 200%Z ∧
  parse_response str_of_headers garbled = ([], Raise UnicodeDecodeError).
Proof.
  split; [reflexivity|].
  exact (X5_parse_response_decodes_before_the_status_check str_of_headers garbled _
           eq_refl eq_refl).
Defined.

(** ** The client: edge cases *)

(** X6: [get_dr_hosts] reads the run's ['name'] once per host, inside
    the loop.  A run without ['deploymentRunHosts'] raises the
    [KeyError] of that key; a run without ['name'] is accepted when it
    has no host, and raises [KeyError('name')] at its first host. *)
Theorem X6_get_dr_hosts_reads_the_name_per_host
  (net : string → nat → outcome) (json_loads : string → option pyval)
  (client : Session) (id deployment_run : pyval) :
  (get_json net json_loads client ("/api/drs/" +:+ py_str id)).2 = Ok deployment_run →
  (∀ e, py_getitem deployment_run "deploymentRunHosts" = Raise e →
        (get_dr_hosts net json_loads client id).2 = Raise e) ∧
  (∀ l, py_getitem deployment_run "deploymentRunHosts" = Ok (PyList l) →
        py_getitem deployment_run "name" = Raise (KeyError "name") →
        (get_dr_hosts net json_loads client id).2
        = match l with
          | [] => Ok (PyList [])
          | PyDict _ :: _ => Raise (KeyError "name")
          | _ :: _ => Raise (AttributeError "update")
          end).
Proof.
  intros Hrun. rewrite get_dr_hosts_ending, Hrun. cbn [rbind]. split.
  - by intros e ->.
  - intros l -> Hname. cbn [rbind py_iter].
    destruct l as [|d l]; [done|]. cbn [stamp_hosts].
    destruct d; cbn [py_update rbind]; try done. by rewrite Hname.
Qed.

Lemma X6_witness_run_without_name :
  (get_json (sample_net 200 nameless_routes) (sample_loads (map snd nameless_routes))
            sample_client ("/api/drs/" +:+ py_str (PyInt 7))).2
  = Ok (PyDict [("id", PyInt 7); ("deploymentRunHosts", PyList [])]) ∧
  (get_dr_hosts (sample_net 200 nameless_routes) (sample_loads (map snd nameless_routes))
                sample_client (PyInt 7)).2 = Ok (PyList []).
Proof.
  assert (H : (get_json (sample_net 200 nameless_routes)
                 (sample_loads (map snd nameless_routes))
                 sample_client ("/api/drs/" +:+ py_str (PyInt 7))).2
              = Ok (PyDict [("id", PyInt 7); ("deploymentRunHosts", PyList [])])).
  { vm_compute. reflexivity. }
  split; [exact H|].
  exact (proj2 (X6_get_dr_hosts_reads_the_name_per_host _ _ _ _ _ H) [] eq_refl eq_refl).
Defined.

(** X7: what [get_dr_host_details] returns is the decoded object with
    ['drId'] and ['drName'] set to the arguments, replacing what the body
    had under these keys, and with every other key as decoded. *)
Theorem X7_stamping_changes_nothing_else
  (net : string → nat → outcome) (json_loads : string → option pyval)
  (client : Session) (id hid name v : pyval) :
  (get_dr_host_details net json_loads client id hid name).2 = Ok v →
  ∃ d d',
    (get_json net json_loads client
       ("/api/drs/" +:+ py_str id +:+ "/host/" +:+ py_str hid)).2 = Ok (PyDict d) ∧
    v = PyDict d' ∧
    alist_get "drId" d' = Some id ∧
    alist_get "drName" d' = Some name ∧
    ∀ k, k ≠ "drId" → k ≠ "drName" → alist_get k d' = alist_get k d.
Proof.
  intros Hv.
  destruct (get_dr_host_details_stamps net json_loads client id hid name v Hv)
    as (decoded & Hdecoded & d & -> & ->).
  exists d, (stamp id name d). split; [done|]. split; [done|].
  destruct (tagged_stamp id name d) as [HdrId HdrName].
  unfold py_getitem in HdrId, HdrName.
  destruct (alist_get "drId" (stamp id name d)) as [x|]; [|done].
  destruct (alist_get "drName" (stamp id name d)) as [y|]; [|done].
  split; [congruence|]. split; [congruence|].
  intros k. apply stamp_keeps.
Qed.

Lemma X7_witness_host_five :
  ∃ v,
    (get_dr_host_details (sample_net 200 sample_routes) (sample_loads sample_table)
       sample_client (PyInt 11) (PyInt 5) (PyStr "alpha")).2 = Ok v ∧
    ∃ d d',
      (get_json (sample_net 200 sample_routes) (sample_loads sample_table) sample_client
         ("/api/drs/" +:+ py_str (PyInt 11) +:+ "/host/" +:+ py_str (PyInt 5))).2
      = Ok (PyDict d) ∧
      v = PyDict d' ∧
      alist_get "drId" d' = Some (PyInt 11) ∧
      alist_get "drName" d' = Some (PyStr "alpha") ∧
      ∀ k, k ≠ "drId" → k ≠ "drName" → alist_get k d' = alist_get k d.
Proof.
  eexists. split; [vm_compute; reflexivity|].
  apply X7_stamping_changes_nothing_else. vm_compute. reflexivity.
Defined.

(** ** The pool: every task runs once *)

Section PoolEvents.
Context {A : Type}.
Implicit Types tasks : list (io event A).
Implicit Types futures : list (@future A).

Lemma ran_insert tasks : ∀ futures i t r,
  tasks !! i = Some t → futures !! i = Some None →
  ran tasks (<[i := Some r]> futures) ≡ₚ t.1 ++ ran tasks futures.
Proof.
  unfold ran.
  induction tasks as [|t0 tasks IH]; intros [|f futures] [|i] t r Ht Hf;
    simplify_eq/=; try done.
  rewrite (IH futures i t r Ht Hf). apply Permutation_app_swap_app.
Qed.

Lemma ran_none tasks : ∀ n, ran tasks (replicate n None) = [].
Proof.
  unfold ran. induction tasks as [|t tasks IH]; intros [|n]; simpl; auto.
Qed.

Lemma ran_all tasks :
  ran tasks (map (λ t : io event A, Some t.2) tasks) = concat (map fst tasks).
Proof.
  unfold ran. induction tasks as [|t tasks IH]; simpl; [done|]. by rewrite IH.
Qed.

Lemma complete_ran tasks st i :
  st.1 ≡ₚ ran tasks st.2 →
  (complete tasks st i).1 ≡ₚ ran tasks (complete tasks st i).2.
Proof.
  intros Hst. unfold complete.
  destruct (tasks !! i) as [t|] eqn:Ht; [|done].
  destruct (st.2 !! i) as [[r|]|] eqn:Hf; [done| |done].
  cbn [fst snd]. rewrite (ran_insert tasks st.2 i t t.2 Ht Hf), Hst.
  apply Permutation_app_comm.
Qed.

Lemma foldl_complete_ran tasks l : ∀ st,
  st.1 ≡ₚ ran tasks st.2 →
  (foldl (complete tasks) st l).1 ≡ₚ ran tasks (foldl (complete tasks) st l).2.
Proof.
  induction l as [|i l IH]; intros st Hst; [done|].
  simpl. by apply IH, complete_ran.
Qed.

Lemma run_pool_events order tasks :
  (run_pool order tasks).1 ≡ₚ concat (map fst tasks).
Proof.
  rewrite <- ran_all, <- (run_pool_results order tasks).
  unfold run_pool. apply foldl_complete_ran. cbn [fst snd]. by rewrite ran_none.
Qed.

Lemma run_pool_nil order : run_pool order ([] : list (io event A)) = ([], []).
Proof.
  unfold run_pool. simpl. rewrite app_nil_r.
  induction order as [|i order IH]; [done|]. simpl. exact IH.
Qed.
End PoolEvents.

Section FetchEventsFacts.
Variable net : string → nat → outcome.
Variable json_loads : string → option pyval.
Variable client : Session.

End FetchEventsFacts.



(** ** The fetch: failures and empty accounts *)

Lemma submit_runs_none (drs : list pyval) :
  Forall not_reserved drs → submit_runs drs = ret tt.
Proof.
  induction 1 as [|dr drs Hdr _ IH]; [done|].
  rewrite <- IH. exact (submit_runs_skip [] drs dr Hdr).
Qed.

Lemma Forall2_right {A B} (P : A → B → Prop) (Q : B → Prop) (l : list A) (k : list B) :
  Forall2 P l k → (∀ x y, P x y → Q y) → Forall Q k.
Proof. induction 1; constructor; eauto. Qed.

Section FetchFailures.
Variable net : string → nat → outcome.
Variable json_loads : string → option pyval.
Variable client : Session.

Lemma gather_extend_raise (before after : list pyval) (id : pyval) (e : exn) :
  Forall (λ x, ∃ v items, (get_dr_hosts net json_loads client x).2 = Ok v ∧
                          py_iter v = Ok items) before →
  (get_dr_hosts net json_loads client id).2 = Raise e →
  gather_extend (map (λ x, Some (get_dr_hosts net json_loads client x).2)
                     (before ++ id :: after)) = Raise e.
Proof.
  intros Hbefore Hid.
  induction Hbefore as [|x before (v & items & Hv & Hitems) _ IH];
    cbn [app map gather_extend future_result].
  - by rewrite Hid.
  - rewrite Hv. cbn [rbind]. rewrite Hitems. cbn [rbind]. by rewrite IH.
Qed.

Lemma _get_hosts_fan_out (order1 order2 : list nat) (collected : list pyval) :
  (_get_hosts net json_loads client order1 order2).2 = Ok collected →
  ∃ v drs, (get_drs net json_loads client).2 = Ok v ∧ py_iter v = Ok drs ∧
           (fan_out net json_loads client drs order1 order2).2 = Ok collected.
Proof.
  rewrite _get_hosts_ending.
  destruct (get_drs net json_loads client).2 as [v|e|]; cbn [rbind]; [|done..].
  destruct (py_iter v) as [drs|e|] eqn:Hdrs; cbn [rbind]; [|done..].
  intros Hout. exists v, drs. by rewrite fan_out_ending.
Qed.

(** Every record the fetch collects is a [dict]. *)
Lemma collected_dicts (order1 order2 : list nat) (collected : list pyval) :
  (_get_hosts net json_loads client order1 order2).2 = Ok collected →
  Forall (λ x, ∃ d, x = PyDict d) collected.
Proof.
  intros Hcollected.
  apply _get_hosts_fan_out in Hcollected as (v & drs & _ & _ & Hout).
  destruct (fan_out_tags _ _ _ _ _ _ _ Hout) as (_ & lists & _ & Hall).
  eapply Forall2_right; [exact Hall|].
  intros stub record (id & name & hid & _ & _ & _ & [HdrId _]).
  destruct record; try done. by eexists.
Qed.
End FetchFailures.

(** X9: one failing run fails the whole fetch.  When [get_dr_hosts]
    raises for a reserved run and returned for the reserved runs before
    it in the list, the fetch raises that exception, whatever the
    completion order; the tasks of the first pool have all run by then,
    and nothing of the second stage has: no host detail is asked for. *)
Theorem X9_a_failing_run_fails_the_fetch
  (net : string → nat → outcome) (json_loads : string → option pyval)
  (client : Session) (drs : list pyval) (order1 order2 : list nat)
  (before after : list pyval) (id : pyval) (e : exn) :
  submit_runs drs = (before ++ id :: after, Ok tt) →
  Forall (λ x, ∃ v items, (get_dr_hosts net json_loads client x).2 = Ok v ∧
                          py_iter v = Ok items) before →
  (get_dr_hosts net json_loads client id).2 = Raise e →
  let out := fan_out net json_loads client drs order1 order2 in
  out.2 = Raise e ∧
  out.1 ≡ₚ concat (map (λ x, (get_dr_hosts net json_loads client x).1)
                       (before ++ id :: after)).
Proof.
  intros Hsub Hbefore Hid out. subst out. split.
  - rewrite fan_out_ending. unfold fan_out_result. cbv zeta.
    rewrite Hsub. cbn [fst snd rbind].
    by rewrite (gather_extend_raise net json_loads client before after id e).
  - unfold fan_out. cbv zeta. rewrite Hsub. cbn [fst snd].
    rewrite bind_events. cbn [fst snd].
    rewrite run_pool_results, map_map.
    rewrite (gather_extend_raise net json_loads client before after id e) by done.
    unfold bind, lift. cbn [fst]. rewrite app_nil_r, run_pool_events.
    by rewrite map_map.
Qed.

Lemma X9_witness_unknown_run :
  ∃ e,
    (get_dr_hosts (sample_net 200 sample_routes) (sample_loads sample_table)
                  sample_client (PyInt 99)).2 = Raise e ∧
    (fan_out (sample_net 200 sample_routes) (sample_loads sample_table) sample_client
             [run 11 "alpha" "RESERVED"; run 99 "zeta" "RESERVED"] [1; 0] []).2
    = Raise e.
Proof.
  eexists. split; [vm_compute; reflexivity|].
  refine (proj1 (X9_a_failing_run_fails_the_fetch
                   (sample_net 200 sample_routes) (sample_loads sample_table)
                   sample_client
                   [run 11 "alpha" "RESERVED"; run 99 "zeta" "RESERVED"] [1; 0] []
                   [PyInt 11] [] (PyInt 99) _ _ _ _)).
  - reflexivity.
  - constructor; [|constructor].
    eexists _, _. split; vm_compute; reflexivity.
  - vm_compute. reflexivity.
Defined.

(** X10: an account with no reserved run, or with no run at all, gives
    an empty host list: no pool task is submitted and no request is made
    after the listing of the runs. *)
Theorem X10_no_reserved_run_no_request
  (net : string → nat → outcome) (json_loads : string → option pyval)
  (client : Session) (drs : list pyval) (order1 order2 : list nat) :
  Forall not_reserved drs →
  fan_out net json_loads client drs order1 order2 = ([EvTiming], Ok []).
Proof.
  intros Hdrs. unfold fan_out. cbv zeta. rewrite (submit_runs_none drs Hdrs).
  cbn [ret fst snd map]. rewrite run_pool_nil. cbn [fst snd gather_extend].
  unfold bind at 1. cbn [lift app]. rewrite bind_lift_ok, bind_emit.
  cbn [submit_hosts ret fst snd map]. rewrite run_pool_nil. done.
Qed.

Lemma X10_witness_only_a_run_in_error :
  Forall not_reserved [run 13 "gamma" "ERROR"] ∧
  fan_out (sample_net 200 sample_routes) (sample_loads sample_table) sample_client
          [run 13 "gamma" "ERROR"] [0] [3] = ([EvTiming], Ok []).
Proof.
  assert (H : Forall not_reserved [run 13 "gamma" "ERROR"]).
  { constructor; [|constructor].
    exists (PyStr "ERROR"). split; [reflexivity|discriminate]. }
  split; [exact H|].
  exact (X10_no_reserved_run_no_request _ _ _ _ [0] [3] H).
Defined.

(** ** _query: the sort *)

Lemma with_keys_key_error (l : list pyval) :
  Forall (λ x, ∃ d, x = PyDict d) l →
  (∃ x, x ∈ l ∧ ∀ i, py_getitem x "id" ≠ Ok i) →
  with_keys (λ x, py_getitem x "id") l = Raise (KeyError "id").
Proof.
  intros Hdicts (x & Hx & Hid).
  induction Hdicts as [|y l (d & ->) _ IH]; [by apply elem_of_nil in Hx|].
  cbn [with_keys]. unfold py_getitem at 1.
  destruct (alist_get "id" d) as [k|] eqn:Hk; cbn [rbind]; [|done].
  apply elem_of_cons in Hx as [->|Hx].
  - exfalso. apply (Hid k). unfold py_getitem. by rewrite Hk.
  - by rewrite (IH Hx).
Qed.

(** X11: a detail record without ['id'] makes [_query] raise
    [KeyError('id')]: the key of the sort is read by subscript from
    every collected record. *)
Theorem X11_query_needs_an_id_on_every_record
  (net : string → nat → outcome) (json_loads : string → option pyval)
  (client : Session) (order1 order2 : list nat) (collected : list pyval) :
  (_get_hosts net json_loads client order1 order2).2 = Ok collected →
  (∃ x, x ∈ collected ∧ ∀ i, py_getitem x "id" ≠ Ok i) →
  (_query net json_loads client order1 order2).2 = Raise (KeyError "id").
Proof.
  intros Hcollected Hidless. rewrite _query_ending, Hcollected. cbn [rbind].
  unfold py_sorted.
  rewrite with_keys_key_error; [done | by eapply collected_dicts | done].
Qed.

Lemma X11_witness_detail_without_id :
  ∃ collected,
    (_get_hosts (sample_net 200 idless_routes) (sample_loads (map snd idless_routes))
                sample_client [] []).2 = Ok collected ∧
    (_query (sample_net 200 idless_routes) (sample_loads (map snd idless_routes))
            sample_client [] []).2 = Raise (KeyError "id").
Proof.
  eexists. split; [vm_compute; reflexivity|].
  eapply X11_query_needs_an_id_on_every_record; [vm_compute; reflexivity|].
  eexists. split; [apply list_elem_of_here|]. intros i. vm_compute. discriminate.
Defined.

Lemma insert_by_key_total (kx : pyval * pyval) (l : list (pyval * pyval)) :
  int_key kx → Forall int_key l → ∃ l', insert_by_key kx l = Ok l'.
Proof.
  intros [i Hi]. induction 1 as [|ky l [j Hj] _ IH]; cbn [insert_by_key].
  - by eexists.
  - rewrite Hi, Hj. cbn [py_lt as_number rbind].
    destruct (j <? i)%Z; [|by eexists].
    destruct IH as [r ->]. by eexists.
Qed.

Lemma sort_by_key_total (l : list (pyval * pyval)) :
  Forall int_key l → ∃ l', sort_by_key l = Ok l'.
Proof.
  induction 1 as [|kx l Hkx Hl [r Hr]]; cbn [sort_by_key]; [by eexists|].
  rewrite Hr. cbn [rbind]. apply insert_by_key_total; [done|].
  apply sort_by_key_perm in Hr. by rewrite Hr.
Qed.

Lemma with_keys_total (l : list pyval) :
  Forall (λ x, ∃ i, has_id x i) l →
  ∃ kl, with_keys (λ x, py_getitem x "id") l = Ok kl ∧ Forall int_key kl.
Proof.
  induction 1 as [|x l [i Hi] _ (kl & Hkl & Hint)]; cbn [with_keys].
  - exists []. by split.
  - rewrite Hi, Hkl. cbn [rbind]. eexists. split; [done|].
    constructor; [by exists i|done].
Qed.

Lemma insert_by_key_stable (i : Z) (kx : pyval * pyval) (l : list (pyval * pyval)) :
  int_key kx → Forall int_key l → ∀ l',
  insert_by_key kx l = Ok l' →
  List.filter (key_is i) l' = List.filter (key_is i) (kx :: l).
Proof.
  intros [a Ha]. destruct kx as [k x]. simpl in Ha. subst k.
  induction 1 as [|[k y] l [b Hb] _ IH]; intros l'; cbn [insert_by_key].
  - by intros [= <-].
  - simpl in Hb. subst k. cbn [fst py_lt as_number rbind].
    destruct (Z.ltb_spec b a) as [Hlt|Hge]; [|by intros [= <-]].
    destruct (insert_by_key (PyInt a, x) l) as [r|e|]; cbn [rbind]; [|done..].
    intros [= <-]. cbn [List.filter]. rewrite (IH r eq_refl). cbn [List.filter].
    unfold key_is. cbn [fst].
    destruct (Z.eqb_spec i b) as [->|_]; [|done].
    destruct (Z.eqb_spec b a) as [->|_]; [lia|done].
Qed.

Lemma sort_by_key_stable (i : Z) (l : list (pyval * pyval)) :
  Forall int_key l → ∀ l',
  sort_by_key l = Ok l' → List.filter (key_is i) l' = List.filter (key_is i) l.
Proof.
  induction 1 as [|kx l Hkx Hl IH]; intros l'; cbn [sort_by_key].
  - by intros [= <-].
  - destruct (sort_by_key l) as [r|e|] eqn:Hr; cbn [rbind]; [|done..].
    intros Hins. apply (insert_by_key_stable i) in Hins; [|done|].
    + rewrite Hins. cbn [List.filter]. by rewrite (IH r eq_refl).
    + apply sort_by_key_perm in Hr. by rewrite Hr.
Qed.

Lemma filter_keyed (i : Z) (kl : list (pyval * pyval)) :
  Forall (λ kx, py_getitem kx.2 "id" = Ok kx.1) kl →
  List.filter (id_is i) (map snd kl) = map snd (List.filter (key_is i) kl).
Proof.
  induction 1 as [|kx kl Hkx _ IH]; [done|].
  cbn [map List.filter]. unfold id_is at 1, key_is at 1. rewrite Hkx, IH.
  destruct kx.1 as [| |j| | |]; try done. by destruct (i =? j)%Z.
Qed.

Lemma py_sorted_int_ids (l : list pyval) :
  Forall (λ x, ∃ i, has_id x i) l →
  ∃ s, py_sorted (λ x, py_getitem x "id") l = Ok s ∧ s ≡ₚ l ∧
       ∀ i, List.filter (id_is i) s = List.filter (id_is i) l.
Proof.
  intros Hids. destruct (with_keys_total l Hids) as (kl & Hkl & Hint).
  destruct (sort_by_key_total kl Hint) as (kl' & Hkl').
  assert (Hsorted : py_sorted (λ x, py_getitem x "id") l = Ok (map snd kl')).
  { unfold py_sorted. rewrite Hkl. cbn [rbind]. by rewrite Hkl'. }
  exists (map snd kl'). split; [done|]. split; [by eapply py_sorted_perm|].
  intros i. apply with_keys_ok in Hkl as [Hl Hkeys].
  rewrite <- Hl, !filter_keyed; [|done|].
  - by rewrite (sort_by_key_stable i kl Hint kl' Hkl').
  - apply sort_by_key_perm in Hkl'. by rewrite Hkl'.
Qed.

(** X12: when every collected record has an integer ['id'], the sort
    cannot fail: [_query] returns [{'cons3rt': hosts}] with [hosts] a
    rearrangement of the collected records. *)
Theorem X12_query_returns_when_ids_are_integers
  (net : string → nat → outcome) (json_loads : string → option pyval)
  (client : Session) (order1 order2 : list nat) (collected : list pyval) :
  (_get_hosts net json_loads client order1 order2).2 = Ok collected →
  Forall (λ x, ∃ i, has_id x i) collected →
  ∃ hosts,
    (_query net json_loads client order1 order2).2
    = Ok (PyDict [("cons3rt", PyList hosts)]) ∧
    hosts ≡ₚ collected.
Proof.
  intros Hcollected Hids. rewrite _query_ending, Hcollected. cbn [rbind].
  destruct (py_sorted_int_ids collected Hids) as (s & -> & Hperm & _).
  by exists s.
Qed.

Lemma X12_witness_sample_ids :
  ∃ collected,
    (_get_hosts (sample_net 200 sample_routes) (sample_loads sample_table)
                sample_client [] []).2 = Ok collected ∧
    ∃ hosts,
      (_query (sample_net 200 sample_routes) (sample_loads sample_table)
              sample_client [] []).2 = Ok (PyDict [("cons3rt", PyList hosts)]) ∧
      hosts ≡ₚ collected.
Proof.
  eexists. split; [vm_compute; reflexivity|].
  apply X12_query_returns_when_ids_are_integers; [vm_compute; reflexivity|].
  repeat constructor; eexists; vm_compute; reflexivity.
Defined.

(** X13: the sort is stable.  Records with the same integer ['id'] come
    out of [_query] in the order they were collected, which is the order
    of submission, so the result does not depend on which task finished
    first even when ids repeat. *)
Theorem X13_equal_ids_keep_the_order_of_collection
  (net : string → nat → outcome) (json_loads : string → option pyval)
  (client : Session) (order1 order2 : list nat) (collected : list pyval) :
  (_get_hosts net json_loads client order1 order2).2 = Ok collected →
  Forall (λ x, ∃ i, has_id x i) collected →
  ∃ hosts,
    (_query net json_loads client order1 order2).2
    = Ok (PyDict [("cons3rt", PyList hosts)]) ∧
    ∀ i, List.filter (id_is i) hosts = List.filter (id_is i) collected.
Proof.
  intros Hcollected Hids. rewrite _query_ending, Hcollected. cbn [rbind].
  destruct (py_sorted_int_ids collected Hids) as (s & -> & _ & Hstable).
  by exists s.
Qed.

Lemma X13_witness_sample_ids :
  ∃ collected,
    (_get_hosts (sample_net 200 sample_routes) (sample_loads sample_table)
                sample_client [1] [2]).2 = Ok collected ∧
    ∃ hosts,
      (_query (sample_net 200 sample_routes) (sample_loads sample_table)
              sample_client [1] [2]).2 = Ok (PyDict [("cons3rt", PyList hosts)]) ∧
      ∀ i, List.filter (id_is i) hosts = List.filter (id_is i) collected.
Proof.
  eexists. split; [vm_compute; reflexivity|].
  apply X13_equal_ids_keep_the_order_of_collection; [vm_compute; reflexivity|].
  repeat constructor; eexists; vm_compute; reflexivity.
Defined.

(** ** Registering a host *)

Lemma alist_get_None {V} (k : string) (d : list (string * V)) :
  k ∉ map fst d → alist_get k d = None.
Proof.
  induction d as [|[k' v] d IH]; [done|]. cbn [map fst alist_get].
  rewrite not_elem_of_cons. intros [Hne Hin].
  destruct (String.eqb_spec k k'); [done|by apply IH].
Qed.

Lemma alist_get_NoDup {V} (k : string) (v : V) (d : list (string * V)) :
  NoDup (map fst d) → (k, v) ∈ d → alist_get k d = Some v.
Proof.
  induction d as [|[k' v'] d IH]; [by intros _ ?%elem_of_nil|].
  cbn [map fst alist_get]. rewrite NoDup_cons, elem_of_cons.
  intros [Hk' Hnd] [[= -> ->]|Hin].
  - by rewrite String.eqb_refl.
  - destruct (String.eqb_spec k k') as [->|_]; [|by apply IH].
    destruct Hk'. by apply (list_elem_of_fmap_2 fst _ (k', v)).
Qed.

Lemma dict_set_fresh (k : string) (v : pyval) (d : dict) :
  alist_get k d = None → dict_set k v d = d ++ [(k, v)].
Proof.
  induction d as [|[k' v'] d IH]; [done|]. cbn [alist_get dict_set].
  destruct (String.eqb k k'); [done|]. intros H. by rewrite (IH H).
Qed.

Lemma dict_set_same (k : string) (v : pyval) (d : dict) :
  alist_get k d = Some v → dict_set k v d = d.
Proof.
  induction d as [|[k' v'] d IH]; [done|]. cbn [alist_get dict_set].
  destruct (String.eqb_spec k k') as [->|_].
  - by intros [= ->].
  - intros H. by rewrite (IH H).
Qed.

Lemma dict_update_fresh (items : dict) : ∀ acc,
  NoDup (map fst (acc ++ items)) → dict_update items acc = acc ++ items.
Proof.
  unfold dict_update.
  induction items as [|[k v] items IH]; intros acc Hnd; cbn [foldl fst snd].
  - by rewrite app_nil_r.
  - rewrite dict_set_fresh.
    + rewrite IH; [by rewrite <- app_assoc|]. by rewrite <- app_assoc.
    + apply alist_get_None. rewrite fmap_app in Hnd.
      apply NoDup_app in Hnd as (_ & Hnot & _).
      intros Hin. apply (Hnot k Hin). left.
Qed.

Lemma dict_update_same (u d : dict) :
  (∀ k v, (k, v) ∈ u → alist_get k d = Some v) → dict_update u d = d.
Proof.
  unfold dict_update. induction u as [|[k v] u IH]; intros Hu; [done|].
  cbn [foldl fst snd]. rewrite dict_set_same.
  - apply IH. intros k' v' Hin. apply Hu. by right.
  - apply Hu. left.
Qed.

Lemma set_variables_run (hostname : pyval) (items : dict) : ∀ new_vars,
  set_variables hostname items new_vars
  = (map (λ kv, SetVariable hostname kv.1 kv.2) items, Ok (dict_update items new_vars)).
Proof.
  induction items as [|[k v] items IH]; intros new_vars; [done|].
  cbn [set_variables]. by rewrite bind_emit, IH.
Qed.

Lemma bind_ok {E A B} (evs : list E) (a : A) (k : A → io E B) :
  bind (evs, Ok a) k = (evs ++ (k a).1, (k a).2).
Proof. unfold bind. by destruct (k a). Qed.

(** X14: a record whose ['systemRole'] is a [str] that is not empty is
    registered in full.  With the keys of the converted record
    distinct, as the keys of a [dict] are, the calls [_add_hosts] makes
    for it are: the host added to the group under that role, every
    variable of the converted record set on it, in the order of the
    record, and the converted record, unchanged by
    [host.update(new_vars)], handed to the three calls that compose
    variables and groups.  The role is required to be a [str] because
    the inventory refuses any other host name. *)
Theorem X14_a_named_host_gets_every_variable_of_its_record
  (camel : list string → dict → dict) (d : dict) (group name : string) :
  py_getitem (PyDict d) "systemRole" = Ok (PyStr name) →
  name ≠ "" →
  NoDup (map fst (camel ["Tags"] d)) →
  _add_host camel (PyDict d) group
  = (AddHost (PyStr name) group
     :: map (λ kv, SetVariable (PyStr name) kv.1 kv.2) (camel ["Tags"] d)
     ++ [SetCompositeVars (camel ["Tags"] d) (PyStr name);
         AddHostToComposedGroups (camel ["Tags"] d) (PyStr name);
         AddHostToKeyedGroups (camel ["Tags"] d) (PyStr name)],
     Ok tt).
Proof.
  intros Hrole Hname Hnd. unfold _add_host.
  assert (py_truthy (PyStr name) = true) as Htruthy.
  { simpl. by destruct (String.eqb_spec name ""). }
  rewrite Hrole, bind_lift_ok, bind_ret, Htruthy. cbn [negb].
  rewrite bind_emit, set_variables_run, bind_ok. cbv zeta.
  rewrite (dict_update_fresh _ []) by done. cbn [app].
  rewrite dict_update_same by (intros k v; by apply alist_get_NoDup).
  by rewrite !bind_emit.
Qed.

Lemma X14_witness_web_host :
  _add_host snake_keys (host_detail 5 "web") "cons3rt"
  = ([AddHost (PyStr "web") "cons3rt";
      SetVariable (PyStr "web") "id" (PyInt 5);
      SetVariable (PyStr "web") "system_role" (PyStr "web");
      SetCompositeVars [("id", PyInt 5); ("system_role", PyStr "web")] (PyStr "web");
      AddHostToComposedGroups [("id", PyInt 5); ("system_role", PyStr "web")] (PyStr "web");
      AddHostToKeyedGroups [("id", PyInt 5); ("system_role", PyStr "web")] (PyStr "web")],
     Ok tt).
Proof.
  refine (X14_a_named_host_gets_every_variable_of_its_record
            snake_keys [("id", PyInt 5); ("systemRole", PyStr "web")] "cons3rt"
            "web" eq_refl _ _).
  - intros H. discriminate H.
  - unfold snake_keys, snake_key. simpl. apply NoDup_cons. split; [|apply NoDup_singleton].
    intros H. apply list_elem_of_singleton in H. discriminate H.
Defined.

(** ** Credentials *)

Lemma truthy_text (v : option string) :
  Plugin.truthy v = true ↔ ∃ text, v = Some text ∧ text ≠ "".
Proof.
  destruct v as [text|]; simpl.
  - destruct (String.eqb_spec text "") as [->|Hne]; simpl.
    + split; [done|]. by intros (? & [= <-] & ?).
    + split; [by exists text|done].
  - split; [done|]. by intros (? & ? & ?).
Qed.

(** X15: [_get_credentials] holds a credential exactly when the
    attribute is set and not empty: a key of the [dict] is one of the
    three names, and its value is the non-empty text of that
    attribute. *)
Theorem X15_get_credentials_keeps_what_is_set
  (self : Plugin.InventoryModule) (k v : string) :
  alist_get k (Plugin._get_credentials self) = Some v ↔
  v ≠ "" ∧
  ((k = "cert_file_path" ∧ Plugin.cert_file_path self = Some v) ∨
   (k = "cert_password" ∧ Plugin.cert_password self = Some v) ∨
   (k = "cons3rt_token" ∧ Plugin.cons3rt_token self = Some v)).
Proof.
  destruct self as [gp mw url a b c]. unfold Plugin._get_credentials.
  cbn [foldl fst snd Plugin.cert_file_path Plugin.cert_password Plugin.cons3rt_token
       Plugin.truthy].
  destruct a as [a|], b as [b|], c as [c|]; simpl;
    try destruct (String.eqb_spec a ""); try destruct (String.eqb_spec b "");
    try destruct (String.eqb_spec c ""); simpl.
  all: split.
  all: try (intros (Hv & [[-> Ha]|[[-> Ha]|[-> Ha]]]); by simplify_eq).
  all: repeat match goal with
              | |- context [String.eqb ?y ?x] => is_var y; destruct (String.eqb_spec y x)
              end; intros; simplify_eq.
  all: try (split; [done|]; auto 6; fail).
Qed.

Lemma get_credentials_full (self : Plugin.InventoryModule) (a b c : string) :
  Plugin.cert_file_path self = Some a → Plugin.cert_password self = Some b →
  Plugin.cons3rt_token self = Some c → a ≠ "" → b ≠ "" → c ≠ "" →
  Plugin._get_credentials self
  = [("cert_file_path", a); ("cert_password", b); ("cons3rt_token", c)].
Proof.
  intros Ha Hb Hc Hane Hbne Hcne. unfold Plugin._get_credentials.
  rewrite Ha, Hb, Hc. simpl.
  destruct (String.eqb_spec a ""); [done|].
  destruct (String.eqb_spec b ""); [done|].
  destruct (String.eqb_spec c ""); [done|]. done.
Qed.

(** X16: [_set_credentials] assigns the three attributes from the
    options, rendered when they are templates, and only then checks
    them.  When the three are set and not empty it returns, and
    [_get_credentials] then gives a [dict] of exactly these three
    entries, in order; otherwise it raises [AnsibleError] with the
    attributes already assigned. *)
Theorem X16_set_credentials_assigns_then_checks
  (get_option : string → option string) (is_template : option string → bool)
  (template : option string → ansible (option string))
  (self : Plugin.InventoryModule) (a b c : option string) :
  Plugin.credential get_option is_template template "cert_file_path" = Fine a →
  Plugin.credential get_option is_template template "cert_password" = Fine b →
  Plugin.credential get_option is_template template "cons3rt_token" = Fine c →
  let out := Plugin._set_credentials get_option is_template template self in
  Plugin.cert_file_path out.1 = a ∧
  Plugin.cert_password out.1 = b ∧
  Plugin.cons3rt_token out.1 = c ∧
  Plugin.cons3rt_url out.1 = Plugin.cons3rt_url self ∧
  if all_truthy a b c then
    out.2 = Fine tt ∧
    ∃ a' b' c',
      a = Some a' ∧ b = Some b' ∧ c = Some c' ∧
      Plugin._get_credentials out.1
      = [("cert_file_path", a'); ("cert_password", b'); ("cons3rt_token", c')]
  else out.2 = AnsibleError insufficient.
Proof.
  intros Ha Hb Hc out. subst out. unfold Plugin._set_credentials.
  rewrite Ha, Hb, Hc. cbv zeta.
  cbn [Plugin.cert_file_path Plugin.cert_password Plugin.cons3rt_token].
  fold (all_truthy a b c).
  destruct (all_truthy a b c) eqn:Hall; cbn [negb fst snd
    Plugin.cert_file_path Plugin.cert_password Plugin.cons3rt_token Plugin.cons3rt_url].
  - repeat (split; [done|]).
    unfold all_truthy in Hall. apply andb_true_iff in Hall as [Hab Hc'].
    apply andb_true_iff in Hab as [Ha' Hb'].
    apply truthy_text in Ha' as (a' & -> & Hane).
    apply truthy_text in Hb' as (b' & -> & Hbne).
    apply truthy_text in Hc' as (c' & -> & Hcne).
    exists a', b', c'. repeat (split; [done|]). by apply get_credentials_full.
  - by repeat (split; [done|]).
Qed.

Lemma X16_witness_plain_options :
  Plugin._get_credentials
    (Plugin._set_credentials sample_options never_template render
       Plugin.InventoryModule_init).1
  = [("cert_file_path", "user.p12"); ("cert_password", "secret");
     ("cons3rt_token", "token")] ∧
  (Plugin._set_credentials options_without_token never_template render
     Plugin.InventoryModule_init).2 = AnsibleError insufficient.
Proof.
  split.
  - destruct (X16_set_credentials_assigns_then_checks
                sample_options never_template render Plugin.InventoryModule_init
                (Some "user.p12") (Some "secret") (Some "token")
                eq_refl eq_refl eq_refl)
      as (_ & _ & _ & _ & _ & a' & b' & c' & Ha & Hb & Hc & Hget).
    injection Ha as <-. injection Hb as <-. injection Hc as <-. exact Hget.
  - exact (proj2 (proj2 (proj2 (proj2
             (X16_set_credentials_assigns_then_checks
                options_without_token never_template render Plugin.InventoryModule_init
                (Some "user.p12") (Some "secret") None eq_refl eq_refl eq_refl))))).
Defined.

(** ** verify_file *)

Lemma endswith_spec (s suffix : string) :
  endswith s suffix = true ↔ ∃ stem, s = stem +:+ suffix.
Proof.
  induction s as [|c s IH]; cbn [endswith].
  - rewrite orb_false_r. split.
    + intros ->%String.eqb_eq. by exists "".
    + intros [[|c stem] H]; [|by rewrite append_cons in H].
      rewrite append_nil_l in H. subst. apply String.eqb_refl.
  - rewrite orb_true_iff, IH. split.
    + intros [->%String.eqb_eq|[stem ->]]; [by exists ""|by exists (String c stem)].
    + intros [[|c' stem] H].
      * left. rewrite append_nil_l in H. subst. apply String.eqb_refl.
      * right. rewrite append_cons in H. injection H as -> ->. by exists stem.
Qed.

(** X17: [verify_file] accepts a path exactly when the base class
    accepts it and it ends in [cons3rt.yaml] or [cons3rt.yml]; nothing
    need come before the suffix, and nothing may come after it. *)
Theorem X17_verify_file_accepts_the_two_suffixes
  (base_verify_file : string → bool) (path : string) :
  Plugin.verify_file base_verify_file path = true ↔
  base_verify_file path = true ∧
  ∃ stem, path = stem +:+ "cons3rt.yaml" ∨ path = stem +:+ "cons3rt.yml".
Proof.
  unfold Plugin.verify_file. cbv zeta.
  destruct (base_verify_file path); [|by split; [|intros []]].
  destruct (endswith path "cons3rt.yaml") eqn:Hyaml; cbn [orb].
  - apply endswith_spec in Hyaml as [stem ->]. split; [|done].
    intros _. split; [done|]. exists stem. by left.
  - destruct (endswith path "cons3rt.yml") eqn:Hyml.
    + apply endswith_spec in Hyml as [stem ->]. split; [|done].
      intros _. split; [done|]. exists stem. by right.
    + split; [done|]. intros [_ [stem [->| ->]]].
      * assert (H : endswith (stem +:+ "cons3rt.yaml") "cons3rt.yaml" = true)
          by (apply endswith_spec; by exists stem).
        congruence.
      * assert (H : endswith (stem +:+ "cons3rt.yml") "cons3rt.yml" = true)
          by (apply endswith_spec; by exists stem).
        congruence.
Qed.

(** ** _populate *)

Lemma bind_ret_r {E} (c : io E unit) : (c ;; ret tt) = c.
Proof. destruct c as [evs [[]|e|]]; unfold bind, ret; by rewrite ?app_nil_r. Qed.

(** X18: on a [dict] of one group, as [_query] returns, [_populate]
    adds the group, registers its hosts as [_add_hosts] does and then
    makes the group a child of [all]; when [_add_hosts] raises the
    group is left unlinked.  It looks the hosts up under the name
    [add_group] returned: if the inventory renamed the group, that is a
    [KeyError] and no host is registered. *)
Theorem X18_populate_adds_the_group_its_hosts_then_links_it
  (camel : list string → dict → dict) (add_group : string → string)
  (group : string) (hosts : list pyval) (v : pyval) :
  (add_group group = group →
   Plugin._populate camel add_group [(group, PyList hosts)]
   = (AddGroup group :: map OfHost (_add_hosts camel hosts group).1
      ++ match (_add_hosts camel hosts group).2 with
         | Ok _ => [AddChild "all" group]
         | _ => []
         end,
      (_add_hosts camel hosts group).2)) ∧
  (add_group group ≠ group →
   Plugin._populate camel add_group [(group, v)]
   = ([AddGroup group], Raise (KeyError (add_group group)))).
Proof.
  unfold Plugin._populate. cbn [map fst Plugin.populate_groups]. split.
  - intros ->. rewrite bind_emit. unfold py_getitem. cbn [alist_get].
    rewrite String.eqb_refl, bind_lift_ok. cbn [py_iter]. rewrite bind_lift_ok.
    destruct (_add_hosts camel hosts group) as [evs [[]|e|]];
      unfold relabel, bind; cbn; by rewrite ?app_nil_r.
  - intros Hne. rewrite bind_emit. unfold py_getitem. cbn [alist_get].
    by destruct (String.eqb_spec (add_group group) group).
Qed.

Lemma X18_witness_one_host :
  Plugin._populate keep_keys same_name [("cons3rt", PyList [host_detail 5 "web"])]
  = ([AddGroup "cons3rt";
      OfHost (AddHost (PyStr "web") "cons3rt");
      OfHost (SetVariable (PyStr "web") "id" (PyInt 5));
      OfHost (SetVariable (PyStr "web") "systemRole" (PyStr "web"));
      OfHost (SetCompositeVars [("id", PyInt 5); ("systemRole", PyStr "web")]
                (PyStr "web"));
      OfHost (AddHostToComposedGroups [("id", PyInt 5); ("systemRole", PyStr "web")]
                (PyStr "web"));
      OfHost (AddHostToKeyedGroups [("id", PyInt 5); ("systemRole", PyStr "web")]
                (PyStr "web"));
      AddChild "all" "cons3rt"],
     Ok tt).
Proof.
  exact (proj1 (X18_populate_adds_the_group_its_hosts_then_links_it
                  keep_keys same_name "cons3rt" [host_detail 5 "web"] PyNone) eq_refl).
Defined.

(** ** parse *)

Lemma query_returns_a_dict (net : string → nat → outcome)
  (json_loads : string → option pyval) (client : Session) (order1 order2 : list nat)
  (v : pyval) :
  (_query net json_loads client order1 order2).2 = Ok v →
  ∃ hosts, v = PyDict [("cons3rt", PyList hosts)].
Proof.
  rewrite _query_ending.
  destruct (_get_hosts _ _ _ _ _).2 as [collected|e|]; cbn [rbind]; [|done..].
  destruct (py_sorted _ collected) as [hosts|e|]; cbn [rbind]; [|done..].
  intros [= <-]. by exists hosts.
Qed.

Section ParseFacts.
Variable net : string → nat → outcome.
Variable json_loads : string → option pyval.
Variable camel : list string → dict → dict.
Variable add_group : string → string.
Variable get_option : string → option string.
Variable is_template : option string → bool.
Variable template : option string → ansible (option string).
Variable cons3rt_url_option : string.
Variable cache_option : bool.
Variable get_cache_key : string → string.
Variable _cache : list (string * dict).
Variable self : Plugin.InventoryModule.
Variables a b c : string.
Hypothesis Hconfigured : configured get_option is_template template a b c.

Lemma parse_run (path : string) (cache : bool) (order1 order2 : list nat) :
  (Plugin.parse net json_loads camel add_group get_option is_template template
     cons3rt_url_option cache_option get_cache_key _cache self path cache
     order1 order2).2
  = Fine
      (let client := Session_init cons3rt_url_option (Build_Credentials a b c) in
       if cache && cache_option then
         match alist_get (get_cache_key path) _cache with
         | Some cached => relabel Inventory (Plugin._populate camel add_group cached)
         | None =>
           fresh_run net json_loads camel add_group client (get_cache_key path)
                     true order1 order2
         end
       else
         fresh_run net json_loads camel add_group client (get_cache_key path)
                   cache_option order1 order2).
Proof.
  destruct Hconfigured as (Ha & Hb & Hc & Hane & Hbne & Hcne).
  unfold Plugin.parse, Plugin._set_credentials. rewrite Ha, Hb, Hc. cbv zeta.
  cbn [Plugin.cert_file_path Plugin.cert_password Plugin.cons3rt_token
       Plugin.group_prefix Plugin.max_workers Plugin.truthy].
  apply String.eqb_neq in Hane as Ea. apply String.eqb_neq in Hbne as Eb.
  apply String.eqb_neq in Hcne as Ec. rewrite Ea, Eb, Ec. cbn [negb andb].
  assert (Hclient :
    Plugin.query net json_loads
      {| Plugin.group_prefix := Plugin.group_prefix self;
         Plugin.max_workers := Plugin.max_workers self;
         Plugin.cons3rt_url := Some cons3rt_url_option;
         Plugin.cert_file_path := Some a; Plugin.cert_password := Some b;
         Plugin.cons3rt_token := Some c |} order1 order2
    = _query net json_loads
        (Session_init cons3rt_url_option (Build_Credentials a b c)) order1 order2).
  { unfold Plugin.query.
    rewrite (get_credentials_full _ a b c) by done.
    unfold Plugin._get_connection, Plugin.credentials_getitem.
    cbn [Plugin.cons3rt_url]. simpl alist_get. cbn [rbind].
    by rewrite bind_lift_ok. }
  destruct cache, cache_option; cbn [negb andb orb];
    try destruct (alist_get (get_cache_key path) _cache) as [cached|];
    cbn [negb andb orb snd Plugin.cert_file_path Plugin.cert_password
         Plugin.cons3rt_token Plugin.group_prefix Plugin.max_workers];
    rewrite ?Hclient; try done.
  by rewrite bind_ret, bind_ret_r.
Qed.
End ParseFacts.

Lemma fresh_run_cache_set (net : string → nat → outcome)
  (json_loads : string → option pyval) (camel : list string → dict → dict)
  (add_group : string → string) (client : Session) (cache_key : string)
  (store : bool) (order1 order2 : list nat) (k : string) (r : dict) :
  CacheSet k r
  ∈ (fresh_run net json_loads camel add_group client cache_key store order1 order2).1 →
  store = true ∧ k = cache_key ∧
  (_query net json_loads client order1 order2).2 = Ok (PyDict r) ∧
  fresh_run net json_loads camel add_group client cache_key store order1 order2
  = (map Net (_query net json_loads client order1 order2).1
     ++ map Inventory (Plugin._populate camel add_group r).1 ++ [CacheSet k r],
     Ok tt).
Proof.
  unfold fresh_run, relabel.
  destruct (_query net json_loads client order1 order2) as [qevs [v|e|]];
    cbn [fst snd].
  - rewrite bind_ok. destruct v as [| | | | |d]; cbn [py_dict lift fst snd];
      rewrite app_nil_r.
    1-5: unfold bind; cbn [fst]; intros H; by not_a_cache_set H.
    rewrite bind_ok.
    destruct (Plugin._populate camel add_group d) as [pevs [[]|e|]] eqn:Hp;
      cbn [fst snd].
    + rewrite bind_ok. destruct store; cbn [emit ret fst snd].
      * rewrite !elem_of_app, !list_elem_of_fmap, list_elem_of_singleton.
        intros [(? & ? & ?)|[(? & ? & ?)|[= -> ->]]]; try done.
        by rewrite Hp.
      * intros H. by not_a_cache_set H.
    + unfold bind at 1. cbn [fst]. intros H. by not_a_cache_set H.
    + unfold bind at 1. cbn [fst]. intros H. by not_a_cache_set H.
  - unfold bind. cbn [fst]. intros H. by not_a_cache_set H.
  - unfold bind. cbn [fst]. intros H. by not_a_cache_set H.
Qed.

Lemma set_credentials_insufficient
  (get_option : string → option string) (is_template : option string → bool)
  (template : option string → ansible (option string))
  (self : Plugin.InventoryModule) (a b c : option string) :
  Plugin.credential get_option is_template template "cert_file_path" = Fine a →
  Plugin.credential get_option is_template template "cert_password" = Fine b →
  Plugin.credential get_option is_template template "cons3rt_token" = Fine c →
  all_truthy a b c = false →
  (Plugin._set_credentials get_option is_template template self).2
  = AnsibleError insufficient.
Proof.
  intros Ha Hb Hc Hall. unfold Plugin._set_credentials. rewrite Ha, Hb, Hc. cbv zeta.
  cbn [Plugin.cert_file_path Plugin.cert_password Plugin.cons3rt_token].
  fold (all_truthy a b c). by rewrite Hall.
Qed.

Lemma sample_configured :
  configured sample_options never_template render "user.p12" "secret" "token".
Proof. repeat split; try reflexivity; intros H; discriminate H. Defined.

(** X19: with the three credential options set, as the check of
    required options leaves them, when one of them is the empty text,
    or is rendered by the templar to the empty text or to nothing,
    [parse] raises [AnsibleError]: there is no request, no call on the
    inventory and no cache write. *)
Theorem X19_parse_does_nothing_without_credentials
  (net : string → nat → outcome) (json_loads : string → option pyval)
  (camel : list string → dict → dict) (add_group : string → string)
  (get_option : string → option string) (is_template : option string → bool)
  (template : option string → ansible (option string))
  (cons3rt_url_option : string) (cache_option : bool)
  (get_cache_key : string → string) (_cache : list (string * dict))
  (self : Plugin.InventoryModule) (path : string) (cache : bool)
  (order1 order2 : list nat) (a b c : option string) :
  credentials_set get_option →
  Plugin.credential get_option is_template template "cert_file_path" = Fine a →
  Plugin.credential get_option is_template template "cert_password" = Fine b →
  Plugin.credential get_option is_template template "cons3rt_token" = Fine c →
  all_truthy a b c = false →
  (Plugin.parse net json_loads camel add_group get_option is_template template
     cons3rt_url_option cache_option get_cache_key _cache self path cache
     order1 order2).2 = AnsibleError insufficient.
Proof.
  intros _ Ha Hb Hc Hall.
  pose proof (set_credentials_insufficient get_option is_template template self
                a b c Ha Hb Hc Hall) as Hset.
  unfold Plugin.parse.
  destruct (Plugin._set_credentials get_option is_template template self)
    as [self' [u|msg]]; simpl in Hset; [done|]. by injection Hset as ->.
Qed.

Lemma options_with_empty_token_set : credentials_set options_with_empty_token.
Proof.
  intros k Hk. repeat (apply elem_of_cons in Hk as [->|Hk]; [by eexists|]).
  by apply elem_of_nil in Hk.
Defined.

Lemma X19_witness_empty_token :
  (Plugin.parse (sample_net 200 sample_routes) (sample_loads sample_table)
     keep_keys same_name options_with_empty_token never_template render
     "https://api" true cache_key_of [] Plugin.InventoryModule_init
     "inv.cons3rt.yml" true [] []).2 = AnsibleError insufficient.
Proof.
  exact (X19_parse_does_nothing_without_credentials
           (sample_net 200 sample_routes) (sample_loads sample_table)
           keep_keys same_name options_with_empty_token never_template render
           "https://api" true cache_key_of [] Plugin.InventoryModule_init
           "inv.cons3rt.yml" true [] []
           (Some "user.p12") (Some "secret") (Some "")
           options_with_empty_token_set eq_refl eq_refl eq_refl eq_refl).
Defined.

(** X20: with caching on and the results under the cache key,
    [parse] populates the inventory from the cached results: every
    event is a call on the inventory, so no request is made and the
    cache is not written. *)
Theorem X20_a_cache_hit_makes_no_request
  (net : string → nat → outcome) (json_loads : string → option pyval)
  (camel : list string → dict → dict) (add_group : string → string)
  (get_option : string → option string) (is_template : option string → bool)
  (template : option string → ansible (option string))
  (cons3rt_url_option : string) (get_cache_key : string → string)
  (_cache : list (string * dict)) (self : Plugin.InventoryModule) (path : string)
  (order1 order2 : list nat) (a b c : string) (cached : dict) :
  configured get_option is_template template a b c →
  alist_get (get_cache_key path) _cache = Some cached →
  (Plugin.parse net json_loads camel add_group get_option is_template template
     cons3rt_url_option true get_cache_key _cache self path true order1 order2).2
  = Fine (relabel Inventory (Plugin._populate camel add_group cached)).
Proof.
  intros Hconfigured Hcached.
  rewrite (parse_run net json_loads camel add_group get_option is_template template
             cons3rt_url_option true get_cache_key _cache self a b c Hconfigured).
  cbv zeta. cbn [andb]. by rewrite Hcached.
Qed.

Lemma X20_witness_cached_host :
  (Plugin.parse (sample_net 200 sample_routes) (sample_loads sample_table)
     keep_keys same_name sample_options never_template render
     "https://api" true cache_key_of
     [(cache_key_of "inv.cons3rt.yml", [("cons3rt", PyList [host_detail 5 "web"])])]
     Plugin.InventoryModule_init "inv.cons3rt.yml" true [] []).2
  = Fine (relabel Inventory
            (Plugin._populate keep_keys same_name
               [("cons3rt", PyList [host_detail 5 "web"])])).
Proof.
  exact (X20_a_cache_hit_makes_no_request
           (sample_net 200 sample_routes) (sample_loads sample_table)
           keep_keys same_name sample_options never_template render
           "https://api" cache_key_of
           [(cache_key_of "inv.cons3rt.yml", [("cons3rt", PyList [host_detail 5 "web"])])]
           Plugin.InventoryModule_init "inv.cons3rt.yml" [] []
           "user.p12" "secret" "token" _ sample_configured eq_refl).
Defined.

(** A fresh run, event by event. *)
Lemma fresh_run_closed (net : string → nat → outcome)
  (json_loads : string → option pyval) (camel : list string → dict → dict)
  (add_group : string → string) (client : Session) (cache_key : string)
  (store : bool) (order1 order2 : list nat) :
  let queried := _query net json_loads client order1 order2 in
  let run :=
    fresh_run net json_loads camel add_group client cache_key store order1 order2 in
  match queried.2 with
  | Ok v =>
    ∃ hosts,
      v = PyDict [("cons3rt", PyList hosts)] ∧
      let populated := Plugin._populate camel add_group [("cons3rt", PyList hosts)] in
      run = (map Net queried.1 ++ map Inventory populated.1
             ++ match populated.2 with
                | Ok _ => if store then [CacheSet cache_key [("cons3rt", PyList hosts)]]
                          else []
                | _ => []
                end,
             populated.2)
  | Raise e => run = (map Net queried.1, Raise e)
  | Hang => run = (map Net queried.1, Hang)
  end.
Proof.
  intros queried run. subst queried run.
  pose proof (query_returns_a_dict net json_loads client order1 order2) as Hdict.
  unfold fresh_run, relabel.
  destruct (_query net json_loads client order1 order2) as [qevs [v|e|]];
    cbn [fst snd] in *; [|done..].
  destruct (Hdict v eq_refl) as [hosts ->]. exists hosts. split; [done|]. cbv zeta.
  rewrite bind_ok. cbn [py_dict lift fst snd]. rewrite app_nil_r, bind_ok.
  destruct (Plugin._populate camel add_group [("cons3rt", PyList hosts)])
    as [pevs [[]|e|]]; cbn [fst snd].
  - rewrite bind_ok. destruct store; cbn [emit ret fst snd]; by rewrite ?app_nil_r.
  - unfold bind at 1. cbn [fst snd]. by rewrite app_nil_r.
  - unfold bind at 1. cbn [fst snd]. by rewrite app_nil_r.
Qed.

(** X21: without a hit (the caller refreshes, the cache option is
    off, or the key is not in the cache) [parse] queries with a client
    built from the URL option and the three credentials.  When the
    query fails, so does [parse], after the requests of the query.
    When it returns, it returns a [dict] of the one group [cons3rt];
    [parse] populates the inventory with it and then, if the population
    succeeded, stores it under the cache key exactly when the cache
    option is on. *)
Theorem X21_without_a_hit_parse_queries_and_stores_if_caching
  (net : string → nat → outcome) (json_loads : string → option pyval)
  (camel : list string → dict → dict) (add_group : string → string)
  (get_option : string → option string) (is_template : option string → bool)
  (template : option string → ansible (option string))
  (cons3rt_url_option : string) (cache_option : bool)
  (get_cache_key : string → string) (_cache : list (string * dict))
  (self : Plugin.InventoryModule) (path : string) (cache : bool)
  (order1 order2 : list nat) (a b c : string) :
  configured get_option is_template template a b c →
  cache = false ∨ cache_option = false ∨ alist_get (get_cache_key path) _cache = None →
  let queried :=
    _query net json_loads
      (Session_init cons3rt_url_option (Build_Credentials a b c)) order1 order2 in
  ∃ run,
    (Plugin.parse net json_loads camel add_group get_option is_template template
       cons3rt_url_option cache_option get_cache_key _cache self path cache
       order1 order2).2 = Fine run ∧
    match queried.2 with
    | Ok v =>
      ∃ hosts,
        v = PyDict [("cons3rt", PyList hosts)] ∧
        let populated :=
          Plugin._populate camel add_group [("cons3rt", PyList hosts)] in
        run = (map Net queried.1 ++ map Inventory populated.1
               ++ match populated.2 with
                  | Ok _ =>
                    if cache_option
                    then [CacheSet (get_cache_key path) [("cons3rt", PyList hosts)]]
                    else []
                  | _ => []
                  end,
               populated.2)
    | Raise e => run = (map Net queried.1, Raise e)
    | Hang => run = (map Net queried.1, Hang)
    end.
Proof.
  intros Hconfigured Hmiss queried. subst queried.
  exists (fresh_run net json_loads camel add_group
            (Session_init cons3rt_url_option (Build_Credentials a b c))
            (get_cache_key path) cache_option order1 order2).
  split; [|apply fresh_run_closed].
  rewrite (parse_run net json_loads camel add_group get_option is_template template
             cons3rt_url_option cache_option get_cache_key _cache self a b c
             Hconfigured).
  cbv zeta. destruct cache, cache_option; cbn [andb]; try done.
  destruct Hmiss as [?|[?|Hnone]]; try done. by rewrite Hnone.
Qed.

Lemma X21_witness_refresh :
  ∃ run,
    (Plugin.parse (sample_net 200 sample_routes) (sample_loads sample_table)
       keep_keys same_name sample_options never_template render
       "https://api" true cache_key_of [] Plugin.InventoryModule_init
       "inv.cons3rt.yml" false [] []).2 = Fine run ∧
    run.2 = Ok tt.
Proof.
  destruct (X21_without_a_hit_parse_queries_and_stores_if_caching
              (sample_net 200 sample_routes) (sample_loads sample_table)
              keep_keys same_name sample_options never_template render
              "https://api" true cache_key_of [] Plugin.InventoryModule_init
              "inv.cons3rt.yml" false [] [] "user.p12" "secret" "token"
              sample_configured (or_introl eq_refl))
    as (run & Hrun & Hclosed).
  exists run. split; [exact Hrun|].
  cbv zeta in Hclosed.
  match type of Hclosed with
  | match ?q with _ => _ end => remember q as ending eqn:Hending
  end.
  vm_compute in Hending. subst ending.
  destruct Hclosed as (hosts & Hhosts & ->). injection Hhosts as <-.
  vm_compute. reflexivity.
Defined.

(** X22: [parse] writes the cache at most once, as its last step,
    under the cache key of the path, and only when the cache option is
    on and both the query and the population succeeded; what it stores
    is what the query returned and the inventory was populated with. *)
Theorem X22_only_the_results_of_a_successful_run_are_cached
  (net : string → nat → outcome) (json_loads : string → option pyval)
  (camel : list string → dict → dict) (add_group : string → string)
  (get_option : string → option string) (is_template : option string → bool)
  (template : option string → ansible (option string))
  (cons3rt_url_option : string) (cache_option : bool)
  (get_cache_key : string → string) (_cache : list (string * dict))
  (self : Plugin.InventoryModule) (path : string) (cache : bool)
  (order1 order2 : list nat) (a b c : string)
  (run : io plugin_event unit) (k : string) (r : dict) :
  configured get_option is_template template a b c →
  (Plugin.parse net json_loads camel add_group get_option is_template template
     cons3rt_url_option cache_option get_cache_key _cache self path cache
     order1 order2).2 = Fine run →
  CacheSet k r ∈ run.1 →
  let queried :=
    _query net json_loads
      (Session_init cons3rt_url_option (Build_Credentials a b c)) order1 order2 in
  cache_option = true ∧
  k = get_cache_key path ∧
  queried.2 = Ok (PyDict r) ∧
  run = (map Net queried.1
         ++ map Inventory (Plugin._populate camel add_group r).1 ++ [CacheSet k r],
         Ok tt).
Proof.
  intros Hconfigured.
  rewrite (parse_run net json_loads camel add_group get_option is_template template
             cons3rt_url_option cache_option get_cache_key _cache self a b c
             Hconfigured).
  cbv zeta. intros [= <-] Hin.
  destruct (cache && cache_option) eqn:Hboth.
  - apply andb_true_iff in Hboth as [-> ->].
    destruct (alist_get (get_cache_key path) _cache) as [cached|].
    + unfold relabel in Hin. cbn [fst] in Hin. by not_a_cache_set Hin.
    + apply fresh_run_cache_set in Hin as (_ & -> & Hq & Hrun). by rewrite Hrun.
  - apply fresh_run_cache_set in Hin as (-> & -> & Hq & Hrun). by rewrite Hrun.
Qed.

Lemma X22_witness_first_run :
  ∃ run,
    (Plugin.parse (sample_net 200 sample_routes) (sample_loads sample_table)
       keep_keys same_name sample_options never_template render
       "https://api" true cache_key_of [] Plugin.InventoryModule_init
       "inv.cons3rt.yml" true [1; 0] []).2 = Fine run ∧
    ∃ k r, last run.1 = Some (CacheSet k r) ∧ k = cache_key_of "inv.cons3rt.yml" ∧
           run.2 = Ok tt.
Proof.
  eexists. split; [vm_compute; reflexivity|].
  eexists _, _.
  match goal with
  | |- last ?l = Some (CacheSet ?k ?r) ∧ _ =>
    assert (Hlast : last l = Some (CacheSet k r)) by (vm_compute; reflexivity)
  end.
  split; [exact Hlast|].
  match type of Hlast with
  | last (?run).1 = Some (CacheSet ?k ?r) =>
    destruct (X22_only_the_results_of_a_successful_run_are_cached
                (sample_net 200 sample_routes) (sample_loads sample_table)
                keep_keys same_name sample_options never_template render
                "https://api" true cache_key_of [] Plugin.InventoryModule_init
                "inv.cons3rt.yml" true [1; 0] [] "user.p12" "secret" "token"
                run k r sample_configured)
      as (_ & Hk & _ & Hrun)
  end.
  - vm_compute. reflexivity.
  - apply (last_Some_elem_of _ _ Hlast).
  - split; [exact Hk|]. by rewrite Hrun.
Defined.

(** ** The retry loop: giving up *)

Lemma last_retry_events (net : string → nat → outcome) (self : Session) (url : string)
  (a n : nat) :
  last (retry_events net self url a (S n)) = Some (EvSleep (retry_time_sec self)).
Proof.
  revert a. induction n as [|n IH]; intros a; [done|].
  change (retry_events net self url a (S (S n)))
    with (EvGet url :: EvPrint (err_msg_of (net url a) a)
          :: EvSleep (retry_time_sec self) :: retry_events net self url (S a) (S n)).
  by rewrite !last_cons, (IH (S a)).
Qed.

(** X23: giving up, for any budget of two or more.  When every attempt
    below [max_retry_attempts] fails, [http_get] raises
    [Cons3rtClientError] with the maximum and the messages of the
    [max_retry_attempts - 1] attempts it made, each followed by a line
    break; it has slept after each of them, the last one too, so the
    error comes one delay after the last failure. *)
Theorem X23_giving_up_comes_one_delay_after_the_last_failure
  (net : string → nat → outcome) (self : Session) (target : string) :
  2 ≤ max_retry_attempts self →
  (∀ j, 1 ≤ j < max_retry_attempts self → fails (net (base self +:+ target) j)) →
  let out := http_get net self (PyStr target) in
  out.2 = Raise (Cons3rtClientError
                   ("Max attempts exceeded: " +:+ str_nat (max_retry_attempts self)
                    +:+ nl +:+ tally net (base self +:+ target) 1
                                     (max_retry_attempts self - 1))) ∧
  count_gets out.1 = max_retry_attempts self - 1 ∧
  slept out.1 = replicate (max_retry_attempts self - 1) (retry_time_sec self) ∧
  last out.1 = Some (EvSleep (retry_time_sec self)).
Proof.
  intros Hmax Hfail out. subst out.
  rewrite (http_get_exhaustion net self target) by (done || lia). cbn [fst snd].
  split; [done|]. split; [apply count_gets_retry_events|].
  split; [apply slept_retry_events|].
  destruct (max_retry_attempts self - 1) as [|n] eqn:Hn; [lia|].
  apply last_retry_events.
Qed.

Lemma X23_witness_refused_nine_times :
  count_gets (http_get (sample_net 200 []) sample_client (PyStr "/api/drs")).1 = 9 ∧
  last (http_get (sample_net 200 []) sample_client (PyStr "/api/drs")).1
  = Some (EvSleep 5).
Proof.
  assert (H := X23_giving_up_comes_one_delay_after_the_last_failure
                 (sample_net 200 []) sample_client "/api/drs").
  cbv zeta in H. destruct H as (_ & Hgets & _ & Hlast).
  - simpl. lia.
  - intros j _. exact I.
  - split; [exact Hgets|exact Hlast].
Defined.
